(** * Maven Roasters coffee-sales pipeline: ingestion, exploration, forecasting

    A shallow embedding of the batch scripts
      - [python/01_Data_ingestion.py]  (normalisation and full-replace load),
      - [python/02_eda.py]             (joined view, store and category roll-ups),
      - [python/04_modelling.py]       (daily series, rolling means, ordered
                                        train/test split, naive store forecast)
    together with the properties their specification states about them.

    Conventions of the embedding.
      - A data frame is a list of rows; a row is a record with one field per
        column.  A cell that may be missing (NaN / NULL) has an [option] type.
      - A [float64] value is the rational it denotes, a canonical [Qc].
        The modules [Pandas], [Eda] and [Modelling] compute sums, means and
        roundings on these rationals without rounding error: the figures
        they define are the exact values that the code approximates.
        Where a property depends on the rounding of binary64 arithmetic,
        it is stated over [Figures] and [Loaded], which leave the float
        operations open, and [Binary64] gives the operations themselves.
      - Times of day are seconds since midnight.
      - Dates are day numbers counted from 1970-01-01.
      - The pandas, SQL and scikit-learn operations the scripts call are
        modelled by the functions of the modules [Pandas], [Sql], [Query]
        and [Sklearn], following the documented behaviour of those calls.
      - What lies outside the scripts (whether a connection or a table load
        fails) is an [Ingestion.environment]. *)

From Stdlib Require Import ZArith QArith Qcanon Qcabs Qround Lqa String.
From stdpp Require Import base decidable option list numbers strings sorting.

Local Open Scope Z_scope.
Local Open Scope Qc_scope.
Local Open Scope list_scope.

(** ** pandas operations used by the scripts *)

Module Pandas.

(** Order on group keys: [groupby] returns its groups sorted by key. *)
Class KeyOrd (K : Type) := key_leb : K → K → bool.
Global Hint Mode KeyOrd ! : typeclass_instances.

Definition key_le `{KeyOrd K} : relation K := λ x y, Is_true (key_leb x y).

Global Instance key_le_dec `{KeyOrd K} : RelDecision (key_le (K:=K)).
Proof. intros x y. unfold key_le. apply _. Defined.

Global Instance Z_KeyOrd : KeyOrd Z := Z.leb.
Global Instance string_KeyOrd : KeyOrd string := String.leb.
(** A pair of keys ([groupby(['store_location', 'date'])]) is ordered
    lexicographically. *)
Global Instance pair_KeyOrd `{EqDecision A, KeyOrd A, KeyOrd B} : KeyOrd (A * B) :=
  λ x y, if decide (x.1 = y.1) then key_leb x.2 y.2 else key_leb x.1 y.1.

Section frames.
Context {A : Type} `{EqDecision A}.

(** [DataFrame.drop_duplicates()] with the default [keep='first']: a row is
    kept when no equal row was seen before it.  Missing cells compare equal
    to each other. *)
Fixpoint drop_duplicates_from (seen : list A) (l : list A) : list A :=
  match l with
  | [] => []
  | x :: l' =>
      if decide (x ∈ seen) then drop_duplicates_from seen l'
      else x :: drop_duplicates_from (x :: seen) l'
  end.

Definition drop_duplicates (l : list A) : list A := drop_duplicates_from [] l.
End frames.

(** [Series.dropna()]: the present values of a column, in order. *)
Definition dropna {A} (col : list (option A)) : list A := omap id col.

(** The keys of a [groupby]: distinct non-missing key values, sorted. *)
Definition group_keys `{EqDecision K, KeyOrd K} {R}
    (key : R → option K) (df : list R) : list K :=
  merge_sort key_le (drop_duplicates (dropna (key <$> df))).

(** [df.groupby(key)] with the defaults [sort=True], [dropna=True]: one group
    per distinct non-missing key, groups in key order, each group holding the
    rows with that key in their original order. *)
Definition groupby `{EqDecision K, KeyOrd K} {R}
    (key : R → option K) (df : list R) : list (K * list R) :=
  (λ k, (k, filter (λ r, key r = Some k) df)) <$> group_keys key df.

(** Aggregations; all of them skip missing values. *)
Definition total (xs : list Qc) : Qc := foldr Qcplus 0 xs.

Definition count {A} (col : list (option A)) : nat := length (dropna col).

Definition sum (col : list (option Qc)) : Qc := total (dropna col).

Definition Qc_of_nat (n : nat) : Qc := Qc_of_Z (Z.of_nat n).

Definition mean (col : list (option Qc)) : option Qc :=
  match dropna col with
  | [] => None
  | xs => Some (total xs / Qc_of_nat (length xs))
  end.

Definition first {A} (col : list (option A)) : option A := head (dropna col).

(** [round(2)]: numpy rounds [x] to [rint (x * 100) / 100], [rint] rounding
    halves to the even neighbour. *)
Definition rint (q : Qc) : Z :=
  let f := Qfloor q in
  let d := q - Qc_of_Z f in
  if decide (d < Q2Qc (1 # 2)) then f
  else if decide (Q2Qc (1 # 2) < d) then (f + 1)%Z
  else if Z.even f then f else (f + 1)%Z.

Definition round2 (q : Qc) : Qc := Qc_of_Z (rint (q * Qc_of_Z 100)) / Qc_of_Z 100.

(** [sort_values(col, ascending=False)]; pandas leaves the relative order of
    rows with equal values unspecified, and nothing below depends on it. *)
Definition desc_by {R} (col : R → option Qc) : relation R := λ x y,
  match col x, col y with
  | Some a, Some b => b ≤ a
  | None, Some _ => False
  | _, None => True
  end.

Global Instance desc_by_dec {R} (col : R → option Qc) : RelDecision (desc_by col).
Proof. intros x y. unfold desc_by. destruct (col x), (col y); apply _. Defined.

(** Rows with a missing value in [col] come last. *)
Definition sort_values_desc {R} (col : R → option Qc) (df : list R) : list R :=
  merge_sort (desc_by col) df.

(** [Series.rolling(window, center=True).mean()] on a column without missing
    values.  The window of position [i] is [start, stop) with
    [stop = i + 1 + (window - 1) // 2] and [start = stop - window], both
    clipped to the series; [min_periods] defaults to [window], so a window
    that holds fewer than [window] observations yields a missing value. *)
Definition rolling_window (window : nat) (n : nat) (i : nat) : nat * nat :=
  let stop := (Z.of_nat i + 1 + Z.of_nat ((window - 1) / 2))%Z in
  let start := (stop - Z.of_nat window)%Z in
  let clip z := Z.to_nat (Z.max 0 (Z.min z (Z.of_nat n))) in
  (clip start, clip stop).

Definition rolling_mean_center (window : nat) (xs : list Qc) : list (option Qc) :=
  imap (λ i _,
    let '(start, stop) := rolling_window window (length xs) i in
    let obs := take (stop - start) (drop start xs) in
    if decide (length obs < window)%nat then None
    else Some (total obs / Qc_of_nat (length obs))) xs.

(** The sum of column [val] over the group of key [k], and the rows whose
    key is one of [ks]. *)
Definition group_sum {K R} `{EqDecision K} (key : R → option K)
    (val : R → option Qc) (df : list R) (k : K) : Qc :=
  sum (val <$> filter (λ r, key r = Some k) df).

Definition keyed_in {K R} (key : R → option K) (ks : list K) (r : R) : Prop :=
  match key r with Some k => k ∈ ks | None => False end.

Global Instance keyed_in_dec {K R} `{EqDecision K} (key : R → option K) ks r :
  Decision (keyed_in key ks r).
Proof. unfold keyed_in. destruct (key r); apply _. Defined.

End Pandas.

Import Pandas.

(** ** IEEE 754 binary64 arithmetic on the finite values *)

Module Binary64.

(** [2 ^ e] for an integer exponent. *)
Definition pow2 (e : Z) : Qc :=
  Qc_of_Z (2 ^ Z.max 0 e) / Qc_of_Z (2 ^ Z.max 0 (- e)).

(** The exponent of the last place of the binary64 value nearest to [x]:
    a significand has 53 bits, and no exponent lies below [-1074]. *)
Definition ulp_exponent (x : Qc) : Z :=
  Z.max (-1074) (Z.log2 (Qfloor (Qcabs x * pow2 1074)%Qc) - 1074 - 52).

(** Rounding to nearest, ties to even.  Overflow to infinity is left out:
    the values below stay far inside the finite range. *)
Definition round (x : Qc) : Qc :=
  let e := ulp_exponent x in
  Qc_of_Z (rint (x * pow2 (- e))) * pow2 e.

Definition add (x y : Qc) : Qc := round (x + y).
Definition sub (x y : Qc) : Qc := round (x - y).
Definition mul (x y : Qc) : Qc := round (x * y).
Definition div (x y : Qc) : Qc := round (x / y).

(** An integer column converted to float, and the product of an integer
    and a float. *)
Definition of_int (n : Z) : Qc := round (Qc_of_Z n).
Definition mul_int (n : Z) (p : Qc) : Qc := mul (of_int n) p.

(** A plain accumulation loop, as numpy runs on a short array. *)
Definition sum_sequential (xs : list Qc) : Qc := foldl add 0 xs.

(** Kahan's compensated summation, as pandas runs within a group. *)
Definition kahan_step (acc : Qc * Qc) (val : Qc) : Qc * Qc :=
  let '(sumx, compensation) := acc in
  let y := sub val compensation in
  let t := add sumx y in
  (t, sub (sub t sumx) y).

Definition sum_kahan (xs : list Qc) : Qc := (foldl kahan_step (0, 0) xs).1.

(** [pandas]' [mean] within a group: the compensated sum over the count. *)
Definition mean_kahan (xs : list Qc) : option Qc :=
  match xs with
  | [] => None
  | _ => Some (div (sum_kahan xs) (Qc_of_nat (length xs)))
  end.

(** [numpy.round(x, 2)]: the product with 100 is rounded to an integer and
    divided by 100, each step in binary64. *)
Definition around2 (x : Qc) : Qc :=
  div (Qc_of_Z (rint (mul x (Qc_of_Z 100)))) (Qc_of_Z 100).

(** [x] is an integer multiple of [2 ^ - k]. *)
Definition on_grid (k : nat) (x : Qc) : Prop :=
  Qc_of_Z (Qfloor (x * pow2 (Z.of_nat k))%Qc) = x * pow2 (Z.of_nat k).

Global Instance on_grid_dec k x : Decision (on_grid k x).
Proof. unfold on_grid. apply _. Defined.

Definition mass (xs : list Qc) : Qc := total (Qcabs <$> xs).

(** A column every partial sum of which is a binary64 value: its values
    are integer multiples of one [2 ^ - k], and their absolute values add
    up to less than [2 ^ 53] such units. *)
Definition exactly_summable (xs : list Qc) : Prop :=
  ∃ k : nat, (k ≤ 1074)%nat ∧ Forall (on_grid k) xs ∧
             mass xs < pow2 (53 - Z.of_nat k).

(** What is asked of a float summation below: on an exactly summable
    column it returns the sum.  Both algorithms above do. *)
Definition faithful_sum (fsum : list Qc → Qc) : Prop :=
  ∀ xs, exactly_summable xs → fsum xs = total xs.

(** What is asked of a float mean: a column without values has none, and a
    column that repeats one value, exactly summable, has that value as its
    mean.  [mean_kahan] does. *)
Definition faithful_mean (gmean : list Qc → option Qc) : Prop :=
  gmean [] = None ∧
  ∀ n p, exactly_summable (replicate (S n) p) →
         gmean (replicate (S n) p) = Some p.

End Binary64.

(** ** Data model: the raw sheet and the three tables derived from it *)

(** One raw record per purchase line, with the columns of the spreadsheet. *)
Module Raw.
Record row := {
  transaction_id : option Z;
  transaction_date : option Z;
  transaction_time : option Z;
  transaction_qty : option Z;
  store_id : option Z;
  store_location : option string;
  product_id : option Z;
  product_category : option string;
  product_type : option string;
  product_detail : option string;
  unit_price : option Qc
}.
Global Instance row_eq_dec : EqDecision row.
Proof. solve_decision. Defined.
End Raw.

Module Store.
Record row := {
  store_id : option Z;
  store_location : option string
}.
Global Instance row_eq_dec : EqDecision row.
Proof. solve_decision. Defined.
End Store.

Module Product.
Record row := {
  product_id : option Z;
  product_category : option string;
  product_type : option string;
  product_detail : option string;
  unit_price : option Qc
}.
Global Instance row_eq_dec : EqDecision row.
Proof. solve_decision. Defined.
End Product.

Module Transaction.
Record row := {
  transaction_id : option Z;
  transaction_date : option Z;
  transaction_time : option Z;
  transaction_qty : option Z;
  store_id : option Z;
  product_id : option Z
}.
Global Instance row_eq_dec : EqDecision row.
Proof. solve_decision. Defined.
End Transaction.

(** ** The relational store *)

Module Sql.

Inductive table := stores_tbl | products_tbl | transactions_tbl.

Definition row_of (t : table) : Type :=
  match t with
  | stores_tbl => Store.row
  | products_tbl => Product.row
  | transactions_tbl => Transaction.row
  end.

(** A table is either absent ([None]) or holds a list of rows. *)
Record database := {
  stores : option (list Store.row);
  products : option (list Product.row);
  transactions : option (list Transaction.row)
}.

Definition get_table (t : table) : database → option (list (row_of t)) :=
  match t with
  | stores_tbl => stores
  | products_tbl => products
  | transactions_tbl => transactions
  end.

Definition set_table (t : table) : option (list (row_of t)) → database → database :=
  match t with
  | stores_tbl => λ v db,
      {| stores := v; products := products db; transactions := transactions db |}
  | products_tbl => λ v db,
      {| stores := stores db; products := v; transactions := transactions db |}
  | transactions_tbl => λ v db,
      {| stores := stores db; products := products db; transactions := v |}
  end.

(** [SELECT COUNT( * ) FROM t]; the query fails on an absent table. *)
Definition count_rows (t : table) (db : database) : option nat :=
  length <$> get_table t db.

End Sql.

(** ** [01_Data_ingestion.py] *)

Module Ingestion.

(** *** Step 3: the dimension tables and the transactions table *)

(** [df[['store_id', 'store_location']].drop_duplicates()] *)
Definition stores (df : list Raw.row) : list Store.row :=
  drop_duplicates
    ((λ r, {| Store.store_id := Raw.store_id r;
              Store.store_location := Raw.store_location r |}) <$> df).

(** [df.groupby("product_id").agg({category: "first", type: "first",
    detail: "first", unit_price: "mean"}).reset_index()] *)
Definition products (df : list Raw.row) : list Product.row :=
  (λ '(k, g),
     {| Product.product_id := Some k;
        Product.product_category := first (Raw.product_category <$> g);
        Product.product_type := first (Raw.product_type <$> g);
        Product.product_detail := first (Raw.product_detail <$> g);
        Product.unit_price := mean (Raw.unit_price <$> g) |})
  <$> groupby Raw.product_id df.

(** [df[['transaction_id', 'transaction_date', 'transaction_time',
        'transaction_qty', 'store_id', 'product_id']]] *)
Definition transactions (df : list Raw.row) : list Transaction.row :=
  (λ r, {| Transaction.transaction_id := Raw.transaction_id r;
           Transaction.transaction_date := Raw.transaction_date r;
           Transaction.transaction_time := Raw.transaction_time r;
           Transaction.transaction_qty := Raw.transaction_qty r;
           Transaction.store_id := Raw.store_id r;
           Transaction.product_id := Raw.product_id r |}) <$> df.

(** *** The script as a computation over the store and the console *)

Definition exn := string.

(** A printed line: fixed text, or an f-string with one formatted value. *)
Inductive line :=
  | Text (s : string)
  | TextNum (before : string) (n : nat) (after : string)
  | TextExn (before : string) (e : exn).

(** What a failed replace-load leaves of its destination table. *)
Inductive damage := Untouched | Dropped.

(** The conditions outside the script: whether creating the engine, a
    replace-load, or the verification connection raises. *)
Record environment := {
  engine_fault : option exn;
  to_sql_fault : Sql.table → option (exn * damage);
  connect_fault : option exn
}.

Record world := { db : Sql.database; console : list line }.

Definition script (A : Type) : Type := world → (exn + A) * world.

Global Instance script_ret : MRet script := λ A x w, (inr x, w).
Global Instance script_bind : MBind script := λ A B f m w,
  match m w with
  | (inl e, w') => (inl e, w')
  | (inr x, w') => f x w'
  end.

Definition raise {A} (e : exn) : script A := λ w, (inl e, w).

(** [try: body except Exception as e: handler e] *)
Definition try_except (body : script ()) (handler : exn → script ()) : script () :=
  λ w, match body w with
       | (inl e, w') => handler e w'
       | (inr tt, w') => (inr tt, w')
       end.

Definition print (l : line) : script () :=
  λ w, (inr (), {| db := db w; console := console w ++ [l] |}).

Definition nl : string := String (Ascii.ascii_of_nat 10) EmptyString.

Definition rule (n : nat) : string := String.concat EmptyString (replicate n "=")%string.

Section run.
Variable env : environment.

Definition get_connection : script () :=
  match engine_fault env with
  | Some e => raise e
  | None => mret ()
  end.

(** [rows.to_sql(t, engine, if_exists='replace', index=False)] *)
Definition to_sql (t : Sql.table) (rows : list (Sql.row_of t)) : script () :=
  λ w, match to_sql_fault env t with
       | Some (e, d) =>
           (inl e,
            {| db := match d with
                     | Untouched => db w
                     | Dropped => Sql.set_table t None (db w)
                     end;
               console := console w |})
       | None =>
           (inr (), {| db := Sql.set_table t (Some rows) (db w);
                       console := console w |})
       end.

(** The body of the [try] of step 4. *)
Definition load (stores : list Store.row) (products : list Product.row)
    (transactions : list Transaction.row) : script () :=
  get_connection;;
  let stores := drop_duplicates stores in
  to_sql Sql.stores_tbl stores;;
  print (Text "✓ Loaded stores table");;
  let products := drop_duplicates products in
  to_sql Sql.products_tbl products;;
  print (Text "✓ Loaded products table");;
  let transactions := drop_duplicates transactions in
  to_sql Sql.transactions_tbl transactions;;
  print (TextNum "✓ Loaded " (length transactions) " transactions");;
  print (Text (nl +:+ rule 50));;
  print (Text "SUCCESS! All data loaded to SQL Server");;
  print (Text (rule 50)).

Definition troubleshooting : list line :=
  [ Text (nl +:+ "Troubleshooting:");
    Text "1. Check SQL Server is running";
    Text "2. Verify database 'MavenRoasters' exists";
    Text "3. Confirm tables are created";
    Text "4. Check ODBC Driver 17 is installed" ].

Definition error_banner : string := nl +:+ "❌ ERROR: ".

(** The [except] branch of step 4. *)
Definition report_load_error (e : exn) : script () :=
  print (TextExn error_banner e);;
  mapM print troubleshooting;;
  mret ().

Definition execute_count (t : Sql.table) : script nat :=
  λ w, match Sql.count_rows t (db w) with
       | Some n => (inr n, w)
       | None => (inl "Invalid object name"%string, w)
       end.

(** The body of the [try] of step 5. *)
Definition verify : script () :=
  match connect_fault env with Some e => raise e | None => mret () end;;
  store_count ← execute_count Sql.stores_tbl;
  product_count ← execute_count Sql.products_tbl;
  transaction_count ← execute_count Sql.transactions_tbl;
  print (Text (nl +:+ "Database record counts:"));;
  print (TextNum "  Stores: " store_count EmptyString);;
  print (TextNum "  Products: " product_count EmptyString);;
  print (TextNum "  Transactions: " transaction_count EmptyString).

Definition step5_banner : line := Text (nl +:+ "Step 5: Verifying data...").
Definition complete_banner : line := Text (nl +:+ "✓ Data ingestion complete!").

(** Step 5 with its [except] branch. *)
Definition verification : script () :=
  try_except verify (λ e, print (TextExn "Could not verify: " e)).

(** Steps 3 to 5 of the script, from the data frame read in step 1. *)
Definition main (df : list Raw.row) : script () :=
  print (Text (nl +:+ "Step 3: Preparing dimension tables..."));;
  let stores := stores df in
  print (TextNum "✓ Prepared " (length stores) " stores");;
  let products := products df in
  print (TextNum "✓ Prepared " (length products) " products");;
  let transactions := transactions df in
  print (TextNum "✓ Prepared " (length transactions) " transactions");;
  print (Text (nl +:+ "Step 4: Loading data to SQL Server..."));;
  try_except (load stores products transactions) report_load_error;;
  print step5_banner;;
  verification;;
  print complete_banner.
End run.

(** The store after running the script on [df] from the store [db0]. *)
Definition run (env : environment) (df : list Raw.row) (db0 : Sql.database)
    : Sql.database :=
  db (main env df {| db := db0; console := [] |}).2.

(** Neither the engine nor any of the three loads raises. *)
Definition loads_succeed (env : environment) : Prop :=
  engine_fault env = None ∧ ∀ t, to_sql_fault env t = None.

(** The frame the script hands to [to_sql] for each table. *)
Definition frame_for (df : list Raw.row) (t : Sql.table) : list (Sql.row_of t) :=
  match t with
  | Sql.stores_tbl => drop_duplicates (stores df)
  | Sql.products_tbl => drop_duplicates (products df)
  | Sql.transactions_tbl => drop_duplicates (transactions df)
  end.

(** The loads run in the order stores, products, transactions. *)
Definition load_order (t : Sql.table) : nat :=
  match t with
  | Sql.stores_tbl => 0
  | Sql.products_tbl => 1
  | Sql.transactions_tbl => 2
  end.

(** The load of [t] is the first one to raise, with exception [e], leaving
    the table as [d] says. *)
Definition fails_at (env : environment) (t : Sql.table) (e : exn) (d : damage)
    : Prop :=
  engine_fault env = None ∧
  to_sql_fault env t = Some (e, d) ∧
  ∀ t', (load_order t' < load_order t)%nat → to_sql_fault env t' = None.

(** What step 5 prints when it runs against the store [db]. *)
Definition verification_output (env : environment) (db0 : Sql.database)
    : list line :=
  console (verification env {| db := db0; console := [] |}).2.

(** An environment in which nothing fails. *)
Definition healthy : environment :=
  {| engine_fault := None; to_sql_fault := λ _, None; connect_fault := None |}.

Definition empty_db : Sql.database :=
  {| Sql.stores := None; Sql.products := None; Sql.transactions := None |}.

End Ingestion.

(** ** The joined transaction view *)

Module Joined.
Record row := {
  transaction_id : option Z;
  transaction_date : option Z;
  transaction_time : option Z;
  transaction_qty : option Z;
  store_id : option Z;
  store_location : option string;
  product_id : option Z;
  product_category : option string;
  product_type : option string;
  product_detail : option string;
  unit_price : option Qc;
  total_amount : option Qc
}.
Global Instance row_eq_dec : EqDecision row.
Proof. solve_decision. Defined.
End Joined.

Module Query.

(** [ON a = b]: a NULL key matches nothing. *)
Definition on_eq (a b : option Z) : Prop := is_Some a ∧ a = b.

Global Instance on_eq_dec a b : Decision (on_eq a b).
Proof. unfold on_eq. apply _. Defined.

(** [(t.transaction_qty * p.unit_price) AS total_amount]: NULL when an
    operand is NULL. *)
Definition amount (qty : option Z) (price : option Qc) : option Qc :=
  n ← qty; p ← price; Some (Qc_of_Z n * p).

Definition select (t : Transaction.row) (s : Store.row) (p : Product.row) : Joined.row :=
  {| Joined.transaction_id := Transaction.transaction_id t;
     Joined.transaction_date := Transaction.transaction_date t;
     Joined.transaction_time := Transaction.transaction_time t;
     Joined.transaction_qty := Transaction.transaction_qty t;
     Joined.store_id := Store.store_id s;
     Joined.store_location := Store.store_location s;
     Joined.product_id := Product.product_id p;
     Joined.product_category := Product.product_category p;
     Joined.product_type := Product.product_type p;
     Joined.product_detail := Product.product_detail p;
     Joined.unit_price := Product.unit_price p;
     Joined.total_amount :=
       amount (Transaction.transaction_qty t) (Product.unit_price p) |}.

(** [FROM transactions t JOIN stores s ON t.store_id = s.store_id
                         JOIN products p ON t.product_id = p.product_id] *)
Definition join (T : list Transaction.row) (S : list Store.row)
    (P : list Product.row) : list Joined.row :=
  t ← T;
  s ← filter (λ s, on_eq (Transaction.store_id t) (Store.store_id s)) S;
  p ← filter (λ p, on_eq (Transaction.product_id t) (Product.product_id p)) P;
  [select t s p].

(** [pd.read_sql(query, conn)]: fails when one of the tables is absent. *)
Definition read_sql (db : Sql.database) : option (list Joined.row) :=
  T ← Sql.transactions db;
  S ← Sql.stores db;
  P ← Sql.products db;
  Some (join T S P).

End Query.

(** ** [02_eda.py]: summary statistics of the joined view *)

Module Eda.

(** [df['total_amount'].sum()] *)
Definition total_revenue (df : list Joined.row) : Qc :=
  sum (Joined.total_amount <$> df).

Record store_stat := {
  store_location : string;
  Transactions : nat;
  Total_Revenue : Qc;
  Avg_Transaction : option Qc
}.

(** [df.groupby('store_location').agg({'transaction_id': 'count',
      'total_amount': ['sum', 'mean']})] *)
Definition store_agg (df : list Joined.row) : list store_stat :=
  (λ '(k, g),
     {| store_location := k;
        Transactions := count (Joined.transaction_id <$> g);
        Total_Revenue := sum (Joined.total_amount <$> g);
        Avg_Transaction := mean (Joined.total_amount <$> g) |})
  <$> groupby Joined.store_location df.

Definition round_store_stat (s : store_stat) : store_stat :=
  {| store_location := store_location s;
     Transactions := Transactions s;
     Total_Revenue := round2 (Total_Revenue s);
     Avg_Transaction := round2 <$> Avg_Transaction s |}.

(** [store_stats]: the aggregate, [.round(2)], sorted by revenue. *)
Definition store_stats (df : list Joined.row) : list store_stat :=
  sort_values_desc (Some ∘ Total_Revenue) (round_store_stat <$> store_agg df).

(** [store_revenue = df.groupby('store_location')['total_amount'].sum()
      .sort_values(ascending=False)]: the per-store sums as plotted. *)
Definition store_revenue (df : list Joined.row) : list (string * Qc) :=
  sort_values_desc (Some ∘ snd)
    ((λ '(k, g), (k, sum (Joined.total_amount <$> g)))
     <$> groupby Joined.store_location df).

Record category_stat := {
  product_category : string;
  Category_Transactions : nat;
  Revenue : Qc
}.

(** [df.groupby('product_category').agg({'transaction_id': 'count',
      'total_amount': 'sum'})] *)
Definition category_agg (df : list Joined.row) : list category_stat :=
  (λ '(k, g),
     {| product_category := k;
        Category_Transactions := count (Joined.transaction_id <$> g);
        Revenue := sum (Joined.total_amount <$> g) |})
  <$> groupby Joined.product_category df.

Definition round_category_stat (c : category_stat) : category_stat :=
  {| product_category := product_category c;
     Category_Transactions := Category_Transactions c;
     Revenue := round2 (Revenue c) |}.

(** [category_stats]: the aggregate, [.round(2)], sorted by revenue. *)
Definition category_stats (df : list Joined.row) : list category_stat :=
  sort_values_desc (Some ∘ Revenue) (round_category_stat <$> category_agg df).

End Eda.

(** ** scikit-learn's [train_test_split] *)

Module Sklearn.

(** [n_test = ceil(test_size * n_samples)] for a fractional [test_size]. *)
Definition n_test (test_size : Qc) (n_samples : nat) : nat :=
  Z.to_nat (Qceiling (test_size * Qc_of_nat n_samples)).

Inductive error :=
  | InconsistentSamples
  | SizesExceedSamples
  | EmptyTrainSet.

(** [train_test_split(X, y, test_size=..., shuffle=False)] with
    [train_size=None]: the training rows are the first
    [n_samples - n_test] positions, the test rows the [n_test] positions
    after them; an empty training set is refused. *)
Definition train_test_split {A B} (X : list A) (y : list B) (test_size : Qc)
    : error + (list A * list A * list B * list B) :=
  let n_samples := length X in
  if decide (length y ≠ n_samples) then inl InconsistentSamples
  else
    let n_test := n_test test_size n_samples in
    let n_train := (n_samples - n_test)%nat in
    if decide (n_samples < n_train + n_test)%nat then inl SizesExceedSamples
    else if decide (n_train = 0)%nat then inl EmptyTrainSet
    else inr (take n_train X, take n_test (drop n_train X),
              take n_train y, take n_test (drop n_train y)).

End Sklearn.

(** ** [04_modelling.py]: daily series, moving averages, split, store forecast

    The script reads the same joined view (its query selects a subset of the
    columns of [Joined.row] and three date-part columns that the code below
    never reads), with [date] the parsed [transaction_date]. *)

Module Modelling.

(** Dates are day numbers counted from 1970-01-01, a Thursday. *)

(** [dt.dayofweek]: Monday is 0, Sunday is 6. *)
Definition dayofweek (d : Z) : Z := ((d + 3) `mod` 7)%Z.

(** The Gregorian year of a day number. *)
Definition year_of (d : Z) : Z :=
  (let z := d + 719468 in
   let era := z / 146097 in
   let doe := z - era * 146097 in
   let yoe := (doe - doe / 1460 + doe / 36524 - doe / 146096) / 365 in
   let doy := doe - (365 * yoe + yoe / 4 - yoe / 100) in
   let mp := (5 * doy + 2) / 153 in
   yoe + era * 400 + (if decide (10 ≤ mp) then 1 else 0))%Z.

(** The day number of 1 January of a year. *)
Definition new_year (y : Z) : Z :=
  (let era := (y - 1) / 400 in
   let yoe := y - 1 - era * 400 in
   era * 146097 + (yoe * 365 + yoe / 4 - yoe / 100 + 306) - 719468)%Z.

(** [dt.isocalendar().week]: the week of the Thursday of the date's week,
    counted within the year of that Thursday. *)
Definition isocalendar_week (d : Z) : Z :=
  (let thursday := d - dayofweek d + 3 in
   (thursday - new_year (year_of thursday)) / 7 + 1)%Z.

(** The sum of an [int64] column wraps around at 64 bits. *)
Definition wrap_int64 (z : Z) : Z := ((z + 2 ^ 63) `mod` 2 ^ 64 - 2 ^ 63)%Z.

Record daily := {
  date : Z;
  num_transactions : nat;
  revenue : Qc;
  items_sold : Z
}.

(** [df.groupby('date').agg({'transaction_id': 'count',
      'total_amount': 'sum', 'transaction_qty': 'sum'}).reset_index()];
    [transaction_qty] is an integer column.  (With a missing quantity
    pandas holds it as floats; the sum of fewer than [2 ^ 53] items is then
    the same number.) *)
Definition daily_data (df : list Joined.row) : list daily :=
  (λ '(d, g),
     {| date := d;
        num_transactions := count (Joined.transaction_id <$> g);
        revenue := sum (Joined.total_amount <$> g);
        items_sold :=
          wrap_int64 (foldr Z.add 0%Z (dropna (Joined.transaction_qty <$> g))) |})
  <$> groupby Joined.transaction_date df.

(** [daily_data['MA_7']], [daily_data['MA_14']] *)
Definition MA_7 (dd : list daily) : list (option Qc) :=
  rolling_mean_center 7 (revenue <$> dd).


(** The feature columns [day_number, day_of_week, is_weekend, week_number]. *)
Record features := {
  day_number : Z;
  day_of_week : Z;
  is_weekend : Z;
  week_number : Z
}.

(** [daily_data['date'].min()] *)
Definition min_date (dd : list daily) : option Z :=
  match date <$> dd with
  | [] => None
  | d :: ds => Some (foldr Z.min d ds)
  end.

(** One row of the feature frame; [origin] is [daily_data['date'].min()]. *)
Definition feature_row (origin : Z) (r : daily) : features :=
  {| day_number := date r - origin;
     day_of_week := dayofweek (date r);
     is_weekend := if decide (dayofweek (date r) ∈ [5; 6]%Z) then 1 else 0;
     week_number := isocalendar_week (date r) |}%Z.

Definition X (dd : list daily) : list features :=
  feature_row (default 0%Z (min_date dd)) <$> dd.

Definition y (dd : list daily) : list Qc := revenue <$> dd.

(** [train_test_split(X, y, test_size=0.2, random_state=42, shuffle=False)] *)
Definition split (dd : list daily) :=
  Sklearn.train_test_split (X dd) (y dd) (Q2Qc (2 # 10)).






End Modelling.

(** ** Concrete inputs used below *)

Module Examples.

Definition purchase (tid day qty sid : Z) (loc : string) (pid : Z)
    (cat : string) (price : Qc) : Raw.row :=
  {| Raw.transaction_id := Some tid;
     Raw.transaction_date := Some day;
     Raw.transaction_time := Some 28800%Z;
     Raw.transaction_qty := Some qty;
     Raw.store_id := Some sid;
     Raw.store_location := Some loc;
     Raw.product_id := Some pid;
     Raw.product_category := Some cat;
     Raw.product_type := Some "Brewed"%string;
     Raw.product_detail := Some "Regular"%string;
     Raw.unit_price := Some price |}.

(** The load of the products table fails after the table was dropped. *)
Definition products_down : Ingestion.environment :=
  {| Ingestion.engine_fault := None;
     Ingestion.to_sql_fault := λ t,
       match t with
       | Sql.products_tbl => Some ("Login timeout expired"%string, Ingestion.Dropped)
       | _ => None
       end;
     Ingestion.connect_fault := None |}.

(** A store left behind by an earlier load of other data. *)
Definition stale_db : Sql.database :=
  {| Sql.stores := Some [ {| Store.store_id := Some 9%Z;
                             Store.store_location := Some "Old"%string |} ];
     Sql.products := Some [];
     Sql.transactions :=
       Some [ {| Transaction.transaction_id := Some 77%Z;
                 Transaction.transaction_date := Some 18000%Z;
                 Transaction.transaction_time := None;
                 Transaction.transaction_qty := Some 1%Z;
                 Transaction.store_id := Some 9%Z;
                 Transaction.product_id := Some 4%Z |} ] |}.

(** One store id recorded under two location names. *)
Definition renamed_store : list Raw.row :=
  [ purchase 1 19000 1 3 "Astoria" 1 "Coffee" (Qc_of_Z 3);
    purchase 2 19001 1 3 "Astoria Blvd" 1 "Coffee" (Qc_of_Z 3) ].


(** The joined view read back after a successful ingestion of [df]. *)
Definition view_of (df : list Raw.row) : list Joined.row :=
  Query.join (Ingestion.frame_for df Sql.transactions_tbl)
    (Ingestion.frame_for df Sql.stores_tbl)
    (Ingestion.frame_for df Sql.products_tbl).

(** One product sold once in each of three stores, at 0.33, 0.33 and 0.34:
    its stored price is their mean, one third. *)
Definition thirds : list Raw.row :=
  [ purchase 1 19000 1 1 "A" 1 "Coffee" (Qc_of_Z 33 / Qc_of_Z 100);
    purchase 2 19000 1 2 "B" 1 "Coffee" (Qc_of_Z 33 / Qc_of_Z 100);
    purchase 3 19000 1 3 "C" 1 "Coffee" (Qc_of_Z 34 / Qc_of_Z 100) ].

(** Two purchases on a single day. *)
Definition one_day : list Raw.row :=
  [ purchase 1 19000 2 1 "A" 1 "Coffee" (Qc_of_Z 3);
    purchase 2 19000 1 1 "A" 2 "Tea" (Qc_of_Z 5) ].

(** Purchases on six different days. *)
Definition six_days : list Raw.row :=
  [ purchase 1 19004 2 1 "A" 1 "Coffee" (Qc_of_Z 3);
    purchase 2 19000 1 1 "A" 2 "Tea" (Qc_of_Z 5);
    purchase 3 19002 1 2 "B" 1 "Coffee" (Qc_of_Z 3);
    purchase 4 19005 1 2 "B" 2 "Tea" (Qc_of_Z 5);
    purchase 5 19001 3 1 "A" 1 "Coffee" (Qc_of_Z 3);
    purchase 6 19003 1 1 "A" 1 "Coffee" (Qc_of_Z 3);
    purchase 7 19000 1 2 "B" 1 "Coffee" (Qc_of_Z 3) ].


(** A sale in a store whose location name is missing from the sheet. *)
Definition unnamed_store : list Raw.row :=
  [ purchase 1 19000 2 1 "A" 1 "Coffee" (Qc_of_Z 3);
    {| Raw.transaction_id := Some 2%Z;
       Raw.transaction_date := Some 19000%Z;
       Raw.transaction_time := Some 28800%Z;
       Raw.transaction_qty := Some 1%Z;
       Raw.store_id := Some 2%Z;
       Raw.store_location := None;
       Raw.product_id := Some 1%Z;
       Raw.product_category := Some "Coffee"%string;
       Raw.product_type := Some "Brewed"%string;
       Raw.product_detail := Some "Regular"%string;
       Raw.unit_price := Some (Qc_of_Z 3) |} ].

(** The eight-day series of the rolling-mean example. *)
Definition eight_days : list Modelling.daily :=
  (λ i, {| Modelling.date := 19000 + Z.of_nat i;
           Modelling.num_transactions := 1;
           Modelling.revenue := Qc_of_Z (if decide (i = 7%nat) then 200 else 100);
           Modelling.items_sold := 1 |}%Z) <$> seq 0 8.

(** The three-transaction scenario: store A is store 1, store B is store 2,
    product X is product 1, product Y is product 2. *)
Definition scenario : list Raw.row :=
  [ purchase 1 19000 2 1 "A" 1 "Coffee" (Qc_of_Z 3);
    purchase 2 19000 1 1 "A" 2 "Tea" (Qc_of_Z 5);
    purchase 3 19001 1 2 "B" 1 "Coffee" (Qc_of_Z 3) ].

(** The scenario at prices in quarters of a unit: 3.75 and 2.5. *)
Definition quarters : list Raw.row :=
  [ purchase 1 19000 2 1 "A" 1 "Coffee" (Qc_of_Z 15 / Qc_of_Z 4);
    purchase 2 19000 1 1 "A" 2 "Tea" (Qc_of_Z 5 / Qc_of_Z 2);
    purchase 3 19001 3 2 "B" 1 "Coffee" (Qc_of_Z 15 / Qc_of_Z 4) ].

(** A row of the joined view with a store, a category and an amount. *)
Definition sale (tid : Z) (loc cat : string) (amount : Qc) : Joined.row :=
  {| Joined.transaction_id := Some tid;
     Joined.transaction_date := Some 19000%Z;
     Joined.transaction_time := Some 28800%Z;
     Joined.transaction_qty := Some 1%Z;
     Joined.store_id := None;
     Joined.store_location := Some loc;
     Joined.product_id := None;
     Joined.product_category := Some cat;
     Joined.product_type := None;
     Joined.product_detail := None;
     Joined.unit_price := Some amount;
     Joined.total_amount := Some amount |}.

(** Three sales of 0.1, 0.2 and 0.3, as binary64 values: the first two in
    store A, the last two in category Tea. *)
Definition tenths : list Joined.row :=
  [ sale 1 "A" "Coffee" (Binary64.round (Qc_of_Z 1 / Qc_of_Z 10));
    sale 2 "A" "Tea" (Binary64.round (Qc_of_Z 2 / Qc_of_Z 10));
    sale 3 "B" "Tea" (Binary64.round (Qc_of_Z 3 / Qc_of_Z 10)) ].

End Examples.

(** ** Notions and sentences of the specification

    These definitions transcribe the words of the specification; the
    theorems below compare them with what the scripts compute. *)

Module Spec.

(** The raw rows that carry product id [pid], in sheet order. *)
Definition rows_of_product (pid : Z) (df : list Raw.row) : list Raw.row :=
  filter (λ r, Raw.product_id r = Some pid) df.

(** "One row per distinct store id". *)
Definition one_row_per_store_id (df : list Raw.row) : Prop :=
  ∀ sid, sid ∈ Raw.store_id <$> df →
    length (filter (λ s, Store.store_id s = sid)
              (Ingestion.frame_for df Sql.stores_tbl)) = 1%nat.



(** "The sum of per-store revenue equals the sum of per-category revenue
    equals the grand total revenue", on the statistics the script reports. *)
Definition aggregate_consistent (df : list Joined.row) : Prop :=
  total (Eda.Total_Revenue <$> Eda.store_stats df) =
    total (Eda.Revenue <$> Eda.category_stats df) ∧
  total (Eda.Total_Revenue <$> Eda.store_stats df) = Eda.total_revenue df.

(** "For every daily series the split yields a training and a test
    segment, the training segment first". *)
Definition split_always_succeeds (df : list Joined.row) : Prop :=
  ∃ X_train X_test y_train y_test,
    Modelling.split (Modelling.daily_data df)
    = inr (X_train, X_test, y_train, y_test).





End Spec.

(** ** [01_Data_ingestion.py], step 2: validation of the sheet *)

Module Validation.

(** [Series.nunique()]: the number of distinct present values. *)
Definition nunique {A} `{EqDecision A} (col : list (option A)) : nat :=
  length (drop_duplicates (dropna col)).

(** [df['store_location'].nunique()], [df['product_id'].nunique()] *)
Definition unique_stores (df : list Raw.row) : nat :=
  nunique (Raw.store_location <$> df).

Definition unique_products (df : list Raw.row) : nat :=
  nunique (Raw.product_id <$> df).

Definition isnull {A} (cell : option A) : bool :=
  match cell with None => true | Some _ => false end.

(** The columns of the sheet, each with its test for a missing cell. *)
Definition columns : list (string * (Raw.row → bool)) :=
  [ ("transaction_id", isnull ∘ Raw.transaction_id);
    ("transaction_date", isnull ∘ Raw.transaction_date);
    ("transaction_time", isnull ∘ Raw.transaction_time);
    ("transaction_qty", isnull ∘ Raw.transaction_qty);
    ("store_id", isnull ∘ Raw.store_id);
    ("store_location", isnull ∘ Raw.store_location);
    ("product_id", isnull ∘ Raw.product_id);
    ("product_category", isnull ∘ Raw.product_category);
    ("product_type", isnull ∘ Raw.product_type);
    ("product_detail", isnull ∘ Raw.product_detail);
    ("unit_price", isnull ∘ Raw.unit_price) ]%string.

(** [missing = df.isnull().sum()]: per column, the number of missing cells. *)
Definition isnull_sum (df : list Raw.row) : list (string * nat) :=
  (λ c, (c.1, length (filter (λ r, Is_true (c.2 r)) df))) <$> columns.

(** What the missing-value check prints: the warning with the columns that
    have missing cells, or the all-clear. *)
Inductive census :=
  | NoMissingValues
  | MissingValuesFound (missing : list (string * nat)).

(** [if missing.any(): ... print(missing[missing > 0]) else: ...] *)
Definition missing_values (df : list Raw.row) : census :=
  let missing := isnull_sum df in
  if decide (Exists (λ m, m.2 ≠ 0%nat) missing)
  then MissingValuesFound (filter (λ m, (0 < m.2)%nat) missing)
  else NoMissingValues.

(** A raw row with every cell present. *)
Definition complete (r : Raw.row) : Prop :=
  is_Some (Raw.transaction_id r) ∧ is_Some (Raw.transaction_date r) ∧
  is_Some (Raw.transaction_time r) ∧ is_Some (Raw.transaction_qty r) ∧
  is_Some (Raw.store_id r) ∧ is_Some (Raw.store_location r) ∧
  is_Some (Raw.product_id r) ∧ is_Some (Raw.product_category r) ∧
  is_Some (Raw.product_type r) ∧ is_Some (Raw.product_detail r) ∧
  is_Some (Raw.unit_price r).

End Validation.

(** ** [02_eda.py]: data-quality checks *)

Module Quality.

(** [Series.duplicated()] with the default [keep='first']: a value is marked
    when an equal value came before it. *)
Fixpoint duplicated_from {A} `{EqDecision A} (seen : list A) (col : list A)
    : list bool :=
  match col with
  | [] => []
  | x :: col' =>
      if decide (x ∈ seen) then true :: duplicated_from seen col'
      else false :: duplicated_from (x :: seen) col'
  end.

Definition duplicated {A} `{EqDecision A} (col : list A) : list bool :=
  duplicated_from [] col.

(** [.sum()] of a boolean column. *)
Definition count_true (col : list bool) : nat := length (filter Is_true col).

(** [df['transaction_id'].duplicated().sum()] *)
Definition duplicates (df : list Joined.row) : nat :=
  count_true (duplicated (Joined.transaction_id <$> df)).

(** [col < 0]: a missing value compares false. *)
Definition negative_Z (cell : option Z) : bool :=
  match cell with Some z => bool_decide (z < 0)%Z | None => false end.

Definition negative_Qc (cell : option Qc) : bool :=
  match cell with Some x => bool_decide (x < 0) | None => false end.

(** [(df['transaction_qty'] < 0).sum()] and the two checks after it. *)
Definition negative_quantities (df : list Joined.row) : nat :=
  count_true (negative_Z ∘ Joined.transaction_qty <$> df).

Definition negative_prices (df : list Joined.row) : nat :=
  count_true (negative_Qc ∘ Joined.unit_price <$> df).

Definition negative_amounts (df : list Joined.row) : nat :=
  count_true (negative_Qc ∘ Joined.total_amount <$> df).

End Quality.

(** ** [02_eda.py]: rankings and time patterns *)

Module Rollups.



Definition day_order : list string :=
  [ "Monday"; "Tuesday"; "Wednesday"; "Thursday"; "Friday"; "Saturday";
    "Sunday" ]%string.

(** [df['date'].dt.day_name()] *)
Definition day_name (date : option Z) : option string :=
  d ← date; day_order !! Z.to_nat (Modelling.dayofweek d).

(** [Series.reindex(order)]: the series in the given order of labels, with a
    missing value for a label the series does not have. *)
Definition reindex {K V} `{EqDecision K} (order : list K)
    (series : list (K * V)) : list (K * option V) :=
  (λ k, (k, snd <$> head (filter (λ kv, kv.1 = k) series))) <$> order.

End Rollups.

(** ** The figures of the scripts over binary64 arithmetic

    The float operations are left open here, so that what is proved holds
    for whatever order and algorithm pandas, numpy and the server use:
    [fsum] is the sum of a float series ([Series.sum()]), [gsum] the sum
    and [gmean] the mean of the values of one group ([groupby(...).sum()],
    [.mean()]), [fround] the rounding to two decimals ([.round(2)]).  The
    values are the finite binary64 numbers, as rationals. *)

Module Figures.

Section arithmetic.
Variables (fsum gsum : list Qc → Qc) (gmean : list Qc → option Qc)
  (fround : Qc → Qc).

(** [df['total_amount'].sum()] *)
Definition total_revenue (df : list Joined.row) : Qc :=
  fsum (dropna (Joined.total_amount <$> df)).

(** [df.groupby('store_location')['total_amount'].sum()]: the per-store
    sums, before any rounding or sorting. *)
Definition store_sums (df : list Joined.row) : list (string * Qc) :=
  (λ '(k, g), (k, gsum (dropna (Joined.total_amount <$> g))))
  <$> groupby Joined.store_location df.

(** [df.groupby('product_category')['total_amount'].sum()] *)
Definition category_sums (df : list Joined.row) : list (string * Qc) :=
  (λ '(k, g), (k, gsum (dropna (Joined.total_amount <$> g))))
  <$> groupby Joined.product_category df.

(** [store_stats]: the aggregate, [.round(2)], sorted by revenue. *)
Definition store_stats (df : list Joined.row) : list Eda.store_stat :=
  sort_values_desc (Some ∘ Eda.Total_Revenue)
    ((λ '(k, g),
        {| Eda.store_location := k;
           Eda.Transactions := count (Joined.transaction_id <$> g);
           Eda.Total_Revenue :=
             fround (gsum (dropna (Joined.total_amount <$> g)));
           Eda.Avg_Transaction :=
             fround <$> gmean (dropna (Joined.total_amount <$> g)) |})
     <$> groupby Joined.store_location df).

(** [category_stats]: the aggregate, [.round(2)], sorted by revenue. *)
Definition category_stats (df : list Joined.row) : list Eda.category_stat :=
  sort_values_desc (Some ∘ Eda.Revenue)
    ((λ '(k, g),
        {| Eda.product_category := k;
           Eda.Category_Transactions := count (Joined.transaction_id <$> g);
           Eda.Revenue := fround (gsum (dropna (Joined.total_amount <$> g))) |})
     <$> groupby Joined.product_category df).

(** [store_stats.index[0]] with [store_stats.iloc[0]['Total_Revenue']]: the
    first row of the sorted statistics; on an empty frame the lookup raises,
    and there is none. *)
Definition best_store (df : list Joined.row) : option (string * Qc) :=
  (λ s, (Eda.store_location s, Eda.Total_Revenue s)) <$> head (store_stats df).

(** [category_stats.index[0]] with [category_stats.iloc[0]['Revenue']] *)
Definition top_category (df : list Joined.row) : option (string * Qc) :=
  (λ c, (Eda.product_category c, Eda.Revenue c)) <$> head (category_stats df).

(** [daily_revenue = df.groupby('date')['total_amount'].sum()], which is
    also the [revenue] column of [daily_data] in [04_modelling.py]. *)
Definition daily_revenue (df : list Joined.row) : list (Z * Qc) :=
  (λ '(k, g), (k, gsum (dropna (Joined.total_amount <$> g))))
  <$> groupby Joined.transaction_date df.

(** [day_revenue = df.groupby('day_of_week')['total_amount'].sum()
      .reindex(day_order)] *)
Definition day_revenue (df : list Joined.row) : list (string * option Qc) :=
  Rollups.reindex Rollups.day_order
    ((λ '(k, g), (k, gsum (dropna (Joined.total_amount <$> g))))
     <$> groupby (Rollups.day_name ∘ Joined.transaction_date) df).

End arithmetic.

End Figures.

(** ** [04_modelling.py]: the seven-day outlook *)

Module Outlook.
Import Modelling.

(** One pass of the loop: the date, the one-row frame [X_future] handed to
    the model, and the prediction.  (The appended record also carries
    [day_name], a rendering of the date.) *)
Record prediction := {
  future_date : Z;
  X_future : features;
  predicted_revenue : Qc
}.

(** [Series.max()]: missing on an empty column. *)
Definition max_Z (col : list Z) : option Z :=
  match col with
  | [] => None
  | z :: zs => Some (foldr Z.max z zs)
  end.

(** The loop [for i in range(1, 8)] of part 5; [predict] is the fitted
    model's [predict].  On an empty daily series there is no last day. *)
Definition future_predictions (predict : features → Qc) (dd : list daily)
    : option (list prediction) :=
  last_day ← max_Z (day_number <$> X dd);
  last_date ← max_Z (date <$> dd);
  Some ((λ i : Z,
           let future_day := (last_day + i)%Z in
           let future_date := (last_date + i)%Z in
           let day_of_week := dayofweek future_date in
           let is_weekend := if decide (day_of_week ∈ [5; 6]%Z) then 1%Z else 0%Z in
           let week_num := isocalendar_week future_date in
           let X_future := {| day_number := future_day;
                              day_of_week := day_of_week;
                              is_weekend := is_weekend;
                              week_number := week_num |} in
           {| future_date := future_date;
              X_future := X_future;
              predicted_revenue := predict X_future |})
        <$> [1; 2; 3; 4; 5; 6; 7]%Z).

End Outlook.

(** ** [01_Data_ingestion.py]: lines of the console that the properties name *)

Module Report.
Import Ingestion.

(** The middle line of the success banner of step 4. *)
Definition success_banner : line := Text "SUCCESS! All data loaded to SQL Server".

(** The four lines step 5 prints when it can count. *)
Definition record_counts (stores products transactions : nat) : list line :=
  [ Text (nl +:+ "Database record counts:");
    TextNum "  Stores: " stores EmptyString;
    TextNum "  Products: " products EmptyString;
    TextNum "  Transactions: " transactions EmptyString ].

(** The line feed (character 10) that the scripts write as an escape. *)
Definition lf : string :=
  String (Ascii.Ascii false true false true false false false false) EmptyString.

(** The lines of step 3, one count per prepared frame, and the header of
    step 4. *)
Definition preparation (df : list Raw.row) : list line :=
  [ Text (lf +:+ "Step 3: Preparing dimension tables...");
    TextNum "✓ Prepared " (length (stores df)) " stores";
    TextNum "✓ Prepared " (length (products df)) " products";
    TextNum "✓ Prepared " (length df) " transactions";
    Text (lf +:+ "Step 4: Loading data to SQL Server...") ].

(** The progress lines of the loads that precede the load of a table. *)
Definition loaded_before (t : Sql.table) : list line :=
  match t with
  | Sql.stores_tbl => []
  | Sql.products_tbl => [ Text "✓ Loaded stores table" ]
  | Sql.transactions_tbl =>
      [ Text "✓ Loaded stores table"; Text "✓ Loaded products table" ]
  end.

(** What step 5 prints against a store: the three counts when it can
    connect and the three tables exist, the could-not-verify line with the
    exception otherwise. *)
Definition verification_report (env : environment) (db0 : Sql.database)
    : list line :=
  match connect_fault env with
  | Some e => [ TextExn "Could not verify: " e ]
  | None =>
      match Sql.stores db0, Sql.products db0, Sql.transactions db0 with
      | Some stores, Some products, Some transactions =>
          record_counts (length stores) (length products) (length transactions)
      | _, _, _ => [ TextExn "Could not verify: " "Invalid object name" ]
      end
  end.

End Report.

(** ** Conditions on a sheet, and the view they lead to *)

Module Clean.

(** Every row carries its store id and its product id. *)
Definition keys_present (df : list Raw.row) : Prop :=
  ∀ r, r ∈ df → is_Some (Raw.store_id r) ∧ is_Some (Raw.product_id r).

(** A store id always comes with the same location name. *)
Definition one_location_per_store (df : list Raw.row) : Prop :=
  ∀ r1 r2, r1 ∈ df → r2 ∈ df →
    Raw.store_id r1 = Raw.store_id r2 →
    Raw.store_location r1 = Raw.store_location r2.

(** A product id always comes with the same unit price. *)
Definition one_price_per_product (df : list Raw.row) : Prop :=
  ∀ r1 r2, r1 ∈ df → r2 ∈ df →
    Raw.product_id r1 = Raw.product_id r2 →
    Raw.unit_price r1 = Raw.unit_price r2.

(** The six transaction columns of a raw row. *)
Definition project (r : Raw.row) : Transaction.row :=
  {| Transaction.transaction_id := Raw.transaction_id r;
     Transaction.transaction_date := Raw.transaction_date r;
     Transaction.transaction_time := Raw.transaction_time r;
     Transaction.transaction_qty := Raw.transaction_qty r;
     Transaction.store_id := Raw.store_id r;
     Transaction.product_id := Raw.product_id r |}.

(** The two store columns of a raw row. *)
Definition store_of (r : Raw.row) : Store.row :=
  {| Store.store_id := Raw.store_id r;
     Store.store_location := Raw.store_location r |}.

End Clean.

(** ** The loaded tables and the view over binary64 arithmetic

    The steps of [Ingestion.products] and of the join query again, with the
    two float operations they perform left open: [gmean] is the mean of the
    unit prices of one product ([groupby(...).agg] with ['mean']), [fmul]
    the product of an integer quantity and a float price as the server
    computes it. *)

Module Loaded.

Section arithmetic.
Variables (gmean : list Qc → option Qc) (fmul : Z → Qc → Qc).

(** [df.groupby("product_id").agg({category: "first", type: "first",
    detail: "first", unit_price: "mean"}).reset_index()] *)
Definition products (df : list Raw.row) : list Product.row :=
  (λ '(k, g),
     {| Product.product_id := Some k;
        Product.product_category := first (Raw.product_category <$> g);
        Product.product_type := first (Raw.product_type <$> g);
        Product.product_detail := first (Raw.product_detail <$> g);
        Product.unit_price := gmean (dropna (Raw.unit_price <$> g)) |})
  <$> groupby Raw.product_id df.

(** [(t.transaction_qty * p.unit_price) AS total_amount]: NULL when an
    operand is NULL. *)
Definition amount (qty : option Z) (price : option Qc) : option Qc :=
  n ← qty; p ← price; Some (fmul n p).

Definition select (t : Transaction.row) (s : Store.row) (p : Product.row)
    : Joined.row :=
  {| Joined.transaction_id := Transaction.transaction_id t;
     Joined.transaction_date := Transaction.transaction_date t;
     Joined.transaction_time := Transaction.transaction_time t;
     Joined.transaction_qty := Transaction.transaction_qty t;
     Joined.store_id := Store.store_id s;
     Joined.store_location := Store.store_location s;
     Joined.product_id := Product.product_id p;
     Joined.product_category := Product.product_category p;
     Joined.product_type := Product.product_type p;
     Joined.product_detail := Product.product_detail p;
     Joined.unit_price := Product.unit_price p;
     Joined.total_amount :=
       amount (Transaction.transaction_qty t) (Product.unit_price p) |}.

(** [FROM transactions t JOIN stores s ON t.store_id = s.store_id
                         JOIN products p ON t.product_id = p.product_id],
    its rows listed in one order. *)
Definition join (T : list Transaction.row) (S : list Store.row)
    (P : list Product.row) : list Joined.row :=
  t ← T;
  s ← filter (λ s, Query.on_eq (Transaction.store_id t) (Store.store_id s)) S;
  p ← filter (λ p, Query.on_eq (Transaction.product_id t) (Product.product_id p)) P;
  [select t s p].

(** The join of the three frames that a run without failure loads. *)
Definition view_of (df : list Raw.row) : list Joined.row :=
  join (drop_duplicates (Ingestion.transactions df))
       (drop_duplicates (Ingestion.stores df))
       (drop_duplicates (products df)).

(** The query has no [ORDER BY]: the server may return the rows of the join
    in any order. *)
Definition returned (df : list Raw.row) (view : list Joined.row) : Prop :=
  view ≡ₚ view_of df.

(** The row of the products table built from the raw rows of a product id. *)
Definition product_of (df : list Raw.row) (pid : Z) : Product.row :=
  {| Product.product_id := Some pid;
     Product.product_category :=
       first (Raw.product_category <$> Spec.rows_of_product pid df);
     Product.product_type :=
       first (Raw.product_type <$> Spec.rows_of_product pid df);
     Product.product_detail :=
       first (Raw.product_detail <$> Spec.rows_of_product pid df);
     Product.unit_price :=
       gmean (dropna (Raw.unit_price <$> Spec.rows_of_product pid df)) |}.

(** The transaction of a raw row, extended with the row's own store columns
    and with the product row of its product id. *)
Definition enrich (df : list Raw.row) (r : Raw.row) : Joined.row :=
  select (Clean.project r) (Clean.store_of r)
    (product_of df (default 0%Z (Raw.product_id r))).

(** The amount of a raw row at the price written in that row. *)
Definition sheet_amount (r : Raw.row) : option Qc :=
  amount (Raw.transaction_qty r) (Raw.unit_price r).

End arithmetic.

End Loaded.

(** ** Views computed in binary64 *)

Module Views.

(** The view of the sheet [Examples.quarters], with pandas' mean of the
    prices and the float product of quantity and price. *)
Definition quarters : list Joined.row :=
  Loaded.view_of Binary64.mean_kahan Binary64.mul_int Examples.quarters.

End Views.

(** * Properties *)

(** ** Facts about the pandas operations *)

Module PandasFacts.

Section drop_duplicates.
Context {A : Type} `{EqDecision A}.
Implicit Types (l seen : list A) (x : A).

Lemma elem_of_drop_duplicates_from seen l x :
  x ∈ drop_duplicates_from seen l ↔ x ∈ l ∧ x ∉ seen.
Proof.
  revert seen. induction l as [|a l IH]; intros seen; simpl.
  - rewrite elem_of_nil. tauto.
  - destruct (decide (a ∈ seen)) as [Hin|Hin].
    + rewrite IH, elem_of_cons. split; [tauto|].
      intros [[->|?] ?]; tauto.
    + rewrite !elem_of_cons, IH, not_elem_of_cons.
      destruct (decide (x = a)) as [->|]; tauto.
Qed.

Lemma NoDup_drop_duplicates_from seen l : NoDup (drop_duplicates_from seen l).
Proof.
  revert seen. induction l as [|a l IH]; intros seen; simpl.
  - constructor.
  - destruct (decide (a ∈ seen)); [apply IH|].
    constructor; [|apply IH].
    rewrite elem_of_drop_duplicates_from, not_elem_of_cons. tauto.
Qed.

Lemma elem_of_drop_duplicates l x : x ∈ drop_duplicates l ↔ x ∈ l.
Proof.
  unfold drop_duplicates. rewrite elem_of_drop_duplicates_from, elem_of_nil. tauto.
Qed.

Lemma NoDup_drop_duplicates l : NoDup (drop_duplicates l).
Proof. apply NoDup_drop_duplicates_from. Qed.

Lemma drop_duplicates_from_NoDup seen l :
  NoDup l → (∀ x, x ∈ l → x ∉ seen) → drop_duplicates_from seen l = l.
Proof.
  intros Hl. revert seen. induction Hl as [|a l Ha Hl IH]; intros seen Hs; simpl.
  - done.
  - rewrite decide_False by (apply Hs; left).
    f_equal. apply IH. intros x Hx. rewrite not_elem_of_cons. split.
    + intros ->. done.
    + apply Hs. by right.
Qed.

(** Dropping duplicates from a duplicate-free frame changes nothing. *)
Lemma drop_duplicates_NoDup l : NoDup l → drop_duplicates l = l.
Proof.
  intros. apply drop_duplicates_from_NoDup; [done|]. intros x _. apply not_elem_of_nil.
Qed.

Lemma drop_duplicates_idemp l : drop_duplicates (drop_duplicates l) = drop_duplicates l.
Proof. apply drop_duplicates_NoDup, NoDup_drop_duplicates. Qed.
End drop_duplicates.

Lemma elem_of_dropna {A} (col : list (option A)) (x : A) :
  x ∈ dropna col ↔ Some x ∈ col.
Proof.
  unfold dropna. rewrite list_elem_of_omap. split.
  - intros (o & Ho & Heq). simpl in Heq. by subst.
  - intros Hx. by exists (Some x).
Qed.

Lemma dropna_Some {A} (xs : list A) : dropna (Some <$> xs) = xs.
Proof.
  unfold dropna. induction xs as [|x xs IH]; [done|].
  rewrite fmap_cons. simpl. by f_equal.
Qed.


Section groupby.
Context {K : Type} `{EqDecision K, KeyOrd K} {R : Type}.
Implicit Types (key : R → option K) (df : list R) (k : K).

Lemma elem_of_group_keys key df k :
  k ∈ group_keys key df ↔ ∃ r, r ∈ df ∧ key r = Some k.
Proof.
  unfold group_keys.
  rewrite merge_sort_Permutation, elem_of_drop_duplicates, elem_of_dropna.
  rewrite list_elem_of_fmap. naive_solver.
Qed.

Lemma NoDup_group_keys key df : NoDup (group_keys key df).
Proof.
  unfold group_keys. rewrite merge_sort_Permutation. apply NoDup_drop_duplicates.
Qed.

Lemma groupby_keys key df : (groupby key df).*1 = group_keys key df.
Proof.
  unfold groupby. rewrite <-list_fmap_compose. apply list_fmap_id.
Qed.

Lemma elem_of_groupby key df k (g : list R) :
  (k, g) ∈ groupby key df ↔
  k ∈ group_keys key df ∧ g = filter (λ r, key r = Some k) df.
Proof.
  unfold groupby. rewrite list_elem_of_fmap. naive_solver.
Qed.

(** Every group of a [groupby] is non-empty. *)
Lemma groupby_nonempty key df k g : (k, g) ∈ groupby key df → g ≠ [].
Proof.
  rewrite elem_of_groupby, elem_of_group_keys.
  intros [(r & Hr & Hk) ->] Hnil.
  eapply (filter_nil_not_elem_of _ _ r); eauto.
Qed.
End groupby.

(** Sorting a frame permutes its rows. *)
Lemma sort_values_desc_Permutation {R} (col : R → option Qc) (df : list R) :
  sort_values_desc col df ≡ₚ df.
Proof. apply merge_sort_Permutation. Qed.

Lemma filter_nil_of_none {A} (P : A → Prop) `{∀ x, Decision (P x)} (l : list A) :
  (∀ x, x ∈ l → ¬ P x) → filter P l = [].
Proof.
  induction l as [|a l IH]; intros HP; [done|].
  rewrite filter_cons_False by (apply HP; left).
  apply IH. intros x Hx. apply HP. by right.
Qed.

Lemma filter_ext_elem_of {A} (P Q : A → Prop)
    `{∀ x, Decision (P x), ∀ x, Decision (Q x)} (l : list A) :
  (∀ x, x ∈ l → P x ↔ Q x) → filter P l = filter Q l.
Proof.
  induction l as [|a l IH]; intros Hl; [done|].
  rewrite !filter_cons, IH by (intros; apply Hl; by right).
  destruct (decide (P a)) as [HP|HP], (decide (Q a)) as [HQ|HQ]; try done.
  - apply Hl in HP; [done|left].
  - apply Hl in HQ; [done|left].
Qed.

Lemma total_cons x xs : total (x :: xs) = x + total xs.
Proof. done. Qed.

Lemma total_app xs ys : total (xs ++ ys) = total xs + total ys.
Proof. induction xs as [|x xs IH]; simpl; [|rewrite IH]; ring. Qed.

Global Instance total_Permutation : Proper ((≡ₚ) ==> (=)) total.
Proof.
  induction 1 as [|x l1 l2 _ IH|x y l|l1 l2 l3 _ IH1 _ IH2]; simpl.
  - done.
  - by rewrite IH.
  - ring.
  - congruence.
Qed.

Lemma sum_cons o col : sum (o :: col) = default 0 o + sum col.
Proof. destruct o; [done|]. simpl. by rewrite Qcplus_0_l. Qed.

Lemma sum_app col1 col2 : sum (col1 ++ col2) = sum col1 + sum col2.
Proof. unfold sum, dropna. by rewrite omap_app, total_app. Qed.

(** Regrouping: the per-group sums of a [groupby] add up to the sum over
    the rows that have a key. *)
Section regroup.
Context {K : Type} `{EqDecision K} {R : Type}.
Variables (key : R → option K) (val : R → option Qc).

Lemma group_sum_cons r df k :
  group_sum key val (r :: df) k =
  (if decide (key r = Some k) then default 0 (val r) else 0) + group_sum key val df k.
Proof.
  unfold group_sum. rewrite filter_cons.
  destruct (decide (key r = Some k)).
  - by rewrite fmap_cons, sum_cons.
  - ring.
Qed.

Lemma total_indicator (f : K → Qc) (a : Qc) (k0 : K) (ks : list K) :
  NoDup ks →
  total ((λ k, (if decide (Some k0 = Some k) then a else 0) + f k) <$> ks) =
  (if decide (k0 ∈ ks) then a else 0) + total (f <$> ks).
Proof.
  induction 1 as [|k ks Hk Hks IH].
  - rewrite decide_False by apply not_elem_of_nil. simpl. ring.
  - rewrite !fmap_cons, !total_cons, IH.
    destruct (decide (Some k0 = Some k)) as [[= ->]|Hne].
    + rewrite (decide_True (P:=k ∈ k :: ks)) by left.
      rewrite (decide_False (P:=k ∈ ks)) by done. ring.
    + destruct (decide (k0 ∈ ks)) as [Hin|Hin].
      * rewrite (decide_True (P:=k0 ∈ k :: ks)) by (by right). ring.
      * rewrite (decide_False (P:=k0 ∈ k :: ks)); [ring|].
        rewrite elem_of_cons. intros [->|?]; done.
Qed.

Lemma total_zero (ks : list K) : total ((λ _, 0) <$> ks) = 0.
Proof.
  induction ks as [|k ks IH]; [done|]. rewrite fmap_cons, total_cons, IH. ring.
Qed.

Lemma total_group_sums (ks : list K) (df : list R) :
  NoDup ks →
  total (group_sum key val df <$> ks) = sum (val <$> filter (keyed_in key ks) df).
Proof.
  intros Hks. induction df as [|r df IH].
  - apply (total_zero ks).
  - rewrite (list_fmap_ext _ _ _ (λ _ k _, group_sum_cons r df k)).
    rewrite filter_cons. destruct (key r) as [k0|] eqn:Hk.
    + rewrite (total_indicator (group_sum key val df)), IH by done.
      assert (keyed_in key ks r ↔ k0 ∈ ks) as Hiff by (unfold keyed_in; by rewrite Hk).
      destruct (decide (k0 ∈ ks)), (decide (keyed_in key ks r)); try tauto.
      * by rewrite fmap_cons, sum_cons.
      * ring.
    + rewrite (decide_False (P:=keyed_in key ks r))
        by (unfold keyed_in; rewrite Hk; tauto).
      rewrite <-IH. f_equal. apply list_fmap_ext. intros i k _.
      rewrite decide_False by done. ring.
Qed.

(** The sums of the groups of [groupby key] add up to the sum over the
    rows whose key is present. *)
Lemma groupby_sums_total `{KeyOrd K} (df : list R) :
  total ((λ kg, sum (val <$> kg.2)) <$> groupby key df) =
  sum (val <$> filter (λ r, is_Some (key r)) df).
Proof.
  unfold groupby. rewrite <-list_fmap_compose.
  change (total (group_sum key val df <$> group_keys key df) =
          sum (val <$> filter (λ r, is_Some (key r)) df)).
  rewrite total_group_sums by apply NoDup_group_keys.
  f_equal. f_equal. apply filter_ext_elem_of.
  intros r Hr. unfold keyed_in. destruct (key r) as [k|] eqn:Hk.
  - rewrite elem_of_group_keys. split; [eauto|]. intros _. eauto.
  - split; [done|]. by intros [? ?].
Qed.

Lemma groupby_sums_total_complete `{KeyOrd K} (df : list R) :
  (∀ r, r ∈ df → is_Some (key r)) →
  total ((λ kg, sum (val <$> kg.2)) <$> groupby key df) = sum (val <$> df).
Proof.
  intros Hall. rewrite groupby_sums_total. f_equal. f_equal.
  induction df as [|r df IH]; [done|].
  rewrite filter_cons_True by (apply Hall; left).
  f_equal. apply IH. intros ??. apply Hall. by right.
Qed.
End regroup.

End PandasFacts.

(** ** Binary64: when sums are exact *)

Module Binary64Facts.
Import Binary64 PandasFacts.

Lemma pow2_nat (e : Z) : (0 ≤ e)%Z → pow2 e = Qc_of_Z (2 ^ e).
Proof.
  intros He. unfold pow2. rewrite (Z.max_r 0 e), (Z.max_l 0 (- e)) by lia.
  change (Qc_of_Z (2 ^ 0)) with (Qc_of_Z 1). rewrite Z2Qc_inj_1.
  unfold Qcdiv. rewrite <-(Qcmult_1_r (Qc_of_Z (2 ^ e))) at 2. by f_equal.
Qed.

Lemma Qc_of_Z_pow2_nonzero (e : Z) : (0 ≤ e)%Z → Qc_of_Z (2 ^ e) ≠ 0.
Proof.
  intros He. rewrite <-Z2Qc_inj_0, Z2Qc_inj_iff. apply Z.pow_nonzero; lia.
Qed.

Lemma pow2_opp (e : Z) : pow2 (- e) = / pow2 e.
Proof.
  unfold pow2. rewrite Z.opp_involutive.
  field. split; apply Qc_of_Z_pow2_nonzero; lia.
Qed.

Lemma pow2_nonzero (e : Z) : pow2 e ≠ 0.
Proof.
  assert (∀ e, (0 ≤ e)%Z → pow2 e ≠ 0) as Hnat.
  { intros e' He'. rewrite pow2_nat by done.
    rewrite <-Z2Qc_inj_0, Z2Qc_inj_iff. apply Z.pow_nonzero; lia. }
  destruct (decide (0 ≤ e)%Z); [by apply Hnat|].
  replace e with (- - e)%Z by lia. rewrite pow2_opp.
  intros Hz. apply (Hnat (- e)%Z); [lia|].
  destruct (decide (pow2 (- e) = 0)) as [|Hne]; [done|].
  apply (Qcmult_inv_r _) in Hne. rewrite Hz, Qcmult_0_r in Hne. discriminate Hne.
Qed.

Lemma pow2_add_nat (a b : Z) :
  (0 ≤ a)%Z → (0 ≤ b)%Z → pow2 (a + b) = pow2 a * pow2 b.
Proof.
  intros Ha Hb. rewrite !pow2_nat by lia.
  by rewrite Z.pow_add_r, Z2Qc_inj_mul by lia.
Qed.

Lemma pow2_add (a b : Z) : pow2 (a + b) = pow2 a * pow2 b.
Proof.
  assert (∀ a b, (0 ≤ a)%Z → (0 ≤ b)%Z → pow2 (a - b) = pow2 a * / pow2 b) as Hsub.
  { intros a' b' Ha' Hb'. destruct (decide (b' ≤ a')%Z).
    - replace a' with ((a' - b') + b')%Z at 2 by lia.
      rewrite (pow2_add_nat (a' - b') b') by lia.
      rewrite <-Qcmult_assoc, Qcmult_inv_r by apply pow2_nonzero.
      by rewrite Qcmult_1_r.
    - replace (a' - b')%Z with (- (b' - a'))%Z by lia. rewrite pow2_opp.
      replace b' with ((b' - a') + a')%Z at 2 by lia.
      rewrite (pow2_add_nat (b' - a') a') by lia.
      rewrite Qcinv_mult_distr, (Qcmult_comm (pow2 a')), <-Qcmult_assoc.
      rewrite (Qcmult_comm (/ pow2 a')), Qcmult_inv_r by apply pow2_nonzero.
      by rewrite Qcmult_1_r. }
  destruct (decide (0 ≤ a)%Z), (decide (0 ≤ b)%Z).
  - by apply pow2_add_nat.
  - replace (a + b)%Z with (a - - b)%Z by lia. rewrite Hsub by lia.
    by rewrite <-pow2_opp, Z.opp_involutive.
  - replace (a + b)%Z with (b - - a)%Z by lia. rewrite Hsub by lia.
    rewrite <-pow2_opp, Z.opp_involutive. apply Qcmult_comm.
  - replace (a + b)%Z with (- (- a + - b))%Z by lia.
    rewrite pow2_opp, pow2_add_nat, Qcinv_mult_distr, <-!pow2_opp by lia.
    by rewrite !Z.opp_involutive.
Qed.

Lemma pow2_cancel (e : Z) : pow2 (- e) * pow2 e = 1.
Proof. rewrite pow2_opp. apply Qcmult_inv_l, pow2_nonzero. Qed.

Lemma pow2_pos (e : Z) : 0 < pow2 e.
Proof.
  assert (∀ e, (0 ≤ e)%Z → 0 < pow2 e) as Hnat.
  { intros e' He'. rewrite pow2_nat by done.
    rewrite <-Z2Qc_inj_0.
    apply (proj1 (Z2Qc_inj_lt 0 (2 ^ e'))). by apply Z.pow_pos_nonneg. }
  destruct (decide (0 ≤ e)%Z); [by apply Hnat|].
  replace e with (- - e)%Z by lia. rewrite pow2_opp.
  apply Qcinv_pos. apply Hnat. lia.
Qed.

Lemma Qfloor_of_Z (z : Z) : Qfloor (Qc_of_Z z) = z.
Proof.
  exact (Qfloor_Z z).
Qed.

(** An integer rounds to itself. *)
Lemma rint_of_Z (z : Z) : rint (Qc_of_Z z) = z.
Proof.
  unfold rint. rewrite Qfloor_of_Z.
  replace (Qc_of_Z z - Qc_of_Z z) with (Q2Qc 0) by ring.
  by rewrite decide_True.
Qed.

Lemma Qcabs_of_Z (m : Z) : Qcabs (Qc_of_Z m) = Qc_of_Z (Z.abs m).
Proof.
  destruct (Z.le_ge_cases 0 m) as [Hm|Hm].
  - rewrite Z.abs_eq, Qcabs_pos; [done| |done].
    rewrite <-Z2Qc_inj_0. by apply (proj1 (Z2Qc_inj_le 0 m)).
  - rewrite Z.abs_neq, Qcabs_neg, Z2Qc_inj_opp; [done| |lia].
    rewrite <-Z2Qc_inj_0. by apply (proj1 (Z2Qc_inj_le m 0)).
Qed.

Lemma scale_back (x : Qc) (e : Z) : x * pow2 e * pow2 (- e) = x.
Proof.
  rewrite <-Qcmult_assoc, (Qcmult_comm (pow2 e)), pow2_cancel. apply Qcmult_1_r.
Qed.

Lemma on_grid_iff (k : nat) (x : Qc) :
  on_grid k x ↔ ∃ m : Z, x = Qc_of_Z m * pow2 (- Z.of_nat k).
Proof.
  unfold on_grid. split.
  - intros Hx. exists (Qfloor (x * pow2 (Z.of_nat k))%Qc).
    by rewrite Hx, scale_back.
  - intros [m ->].
    rewrite <-Qcmult_assoc, pow2_cancel, Qcmult_1_r. by rewrite Qfloor_of_Z.
Qed.

(** A multiple of [2 ^ - k] with fewer than 53 bits, [k] within the exponent
    range, is a binary64 value: rounding leaves it as it is. *)
Lemma round_dyadic (k : nat) (m : Z) :
  (k ≤ 1074)%nat → (Z.abs m < 2 ^ 53)%Z →
  round (Qc_of_Z m * pow2 (- Z.of_nat k)) = Qc_of_Z m * pow2 (- Z.of_nat k).
Proof.
  intros Hk Hm. unfold round.
  set (x := Qc_of_Z m * pow2 (- Z.of_nat k)).
  assert (Qcabs x * pow2 1074 = Qc_of_Z (Z.abs m * 2 ^ (1074 - Z.of_nat k))) as Hscaled.
  { unfold x. rewrite Qcabs_Qcmult, Qcabs_of_Z.
    rewrite (Qcabs_pos (pow2 _)) by apply Qclt_le_weak, pow2_pos.
    rewrite <-Qcmult_assoc, <-pow2_add, Z2Qc_inj_mul.
    rewrite <-pow2_nat by lia. do 2 f_equal; lia. }
  assert (- 1074 ≤ ulp_exponent x ≤ - Z.of_nat k)%Z as [Hlow Hhigh].
  { unfold ulp_exponent. rewrite Hscaled, Qfloor_of_Z. split; [lia|].
    apply Z.max_lub; [lia|].
    destruct (decide (m = 0%Z)) as [->|Hne]; [simpl; lia|].
    assert (Z.log2 (Z.abs m * 2 ^ (1074 - Z.of_nat k)) < 1127 - Z.of_nat k)%Z; [|lia].
    apply Z.log2_lt_pow2.
    - apply Z.mul_pos_pos; [lia|]. apply Z.pow_pos_nonneg; lia.
    - replace (1127 - Z.of_nat k)%Z with (53 + (1074 - Z.of_nat k))%Z by lia.
      rewrite Z.pow_add_r by lia.
      assert (0 < 2 ^ (1074 - Z.of_nat k))%Z by (apply Z.pow_pos_nonneg; lia).
      nia. }
  set (e := ulp_exponent x) in *.
  assert (x * pow2 (- e) = Qc_of_Z (m * 2 ^ (- Z.of_nat k - e))) as ->.
  { unfold x. rewrite <-Qcmult_assoc, <-pow2_add, Z2Qc_inj_mul.
    rewrite <-pow2_nat by lia. do 2 f_equal; lia. }
  rewrite rint_of_Z, Z2Qc_inj_mul, <-pow2_nat by lia.
  rewrite <-Qcmult_assoc, <-pow2_add. unfold x. do 2 f_equal; lia.
Qed.

Lemma round_exact (k : nat) (x : Qc) :
  (k ≤ 1074)%nat → on_grid k x → Qcabs x < pow2 (53 - Z.of_nat k) →
  round x = x.
Proof.
  intros Hk [m ->]%on_grid_iff Hbound. apply round_dyadic; [done|].
  rewrite Qcabs_Qcmult, Qcabs_of_Z in Hbound.
  rewrite (Qcabs_pos (pow2 _)) in Hbound by apply Qclt_le_weak, pow2_pos.
  apply (Qcmult_lt_compat_r _ _ (pow2 (Z.of_nat k))) in Hbound; [|apply pow2_pos].
  rewrite <-Qcmult_assoc, pow2_cancel, Qcmult_1_r, <-pow2_add in Hbound.
  replace (53 - Z.of_nat k + Z.of_nat k)%Z with 53%Z in Hbound by lia.
  rewrite (pow2_nat 53) in Hbound by lia. by apply Z2Qc_inj_lt.
Qed.

Local Ltac linear :=
  unfold Qcle, Qclt in *; cbn [this Qcplus Qcminus Qcopp Q2Qc] in *;
  rewrite ?Qred_correct in *; lra.

Lemma on_grid_0 (k : nat) : on_grid k 0.
Proof. apply on_grid_iff. exists 0%Z. by rewrite Z2Qc_inj_0, Qcmult_0_l. Qed.

Lemma on_grid_plus (k : nat) (x y : Qc) :
  on_grid k x → on_grid k y → on_grid k (x + y).
Proof.
  intros [m ->]%on_grid_iff [n ->]%on_grid_iff. apply on_grid_iff.
  exists (m + n)%Z. rewrite Z2Qc_inj_add. ring.
Qed.

Lemma on_grid_opp (k : nat) (x : Qc) : on_grid k x → on_grid k (- x).
Proof.
  intros [m ->]%on_grid_iff. apply on_grid_iff.
  exists (- m)%Z. rewrite Z2Qc_inj_opp. ring.
Qed.

Lemma on_grid_total (k : nat) (xs : list Qc) :
  Forall (on_grid k) xs → on_grid k (total xs).
Proof.
  induction 1 as [|x xs Hx _ IH]; [apply on_grid_0|].
  rewrite total_cons. by apply on_grid_plus.
Qed.

Lemma mass_cons (x : Qc) (xs : list Qc) : mass (x :: xs) = Qcabs x + mass xs.
Proof. done. Qed.

Lemma mass_nonneg (xs : list Qc) : 0 ≤ mass xs.
Proof.
  induction xs as [|x xs IH]; [done|].
  rewrite mass_cons. pose proof (Qcabs_nonneg x). linear.
Qed.

(** The absolute value of a sum is at most the sum of the absolute values. *)
Lemma Qcabs_total (xs : list Qc) : Qcabs (total xs) ≤ mass xs.
Proof.
  induction xs as [|x xs IH]; [done|].
  rewrite total_cons, mass_cons.
  pose proof (Qcabs_triangle x (total xs)). linear.
Qed.

(** The plain loop is exact on an exactly summable column. *)
Lemma foldl_add_exact (k : nat) (acc : Qc) (xs : list Qc) :
  (k ≤ 1074)%nat → on_grid k acc → Forall (on_grid k) xs →
  Qcabs acc + mass xs < pow2 (53 - Z.of_nat k) →
  foldl add acc xs = acc + total xs.
Proof.
  intros Hk Hacc Hxs. revert acc Hacc.
  induction Hxs as [|x xs Hx _ IH]; intros acc Hacc Hbound.
  - simpl. ring.
  - rewrite mass_cons in Hbound. pose proof (mass_nonneg xs) as Hpos.
    pose proof (Qcabs_triangle acc x) as Htri.
    cbn [foldl]. unfold add at 2. rewrite (round_exact k (acc + x)).
    + rewrite IH; [rewrite total_cons; ring|by apply on_grid_plus|linear].
    + done.
    + by apply on_grid_plus.
    + linear.
Qed.

Lemma sum_sequential_exact (xs : list Qc) :
  exactly_summable xs → sum_sequential xs = total xs.
Proof.
  intros (k & Hk & Hgrid & Hmass). unfold sum_sequential.
  rewrite (foldl_add_exact k); [ring|done|apply on_grid_0|done|].
  rewrite (Qcabs_pos 0) by done. linear.
Qed.

Lemma round_0 : round 0 = 0.
Proof. apply Qc_is_canon. by vm_compute. Qed.

(** Kahan's summation is exact there too, and its compensation stays 0. *)
Lemma foldl_kahan_exact (k : nat) (acc : Qc) (xs : list Qc) :
  (k ≤ 1074)%nat → on_grid k acc → Forall (on_grid k) xs →
  Qcabs acc + mass xs < pow2 (53 - Z.of_nat k) →
  foldl kahan_step (acc, 0) xs = (acc + total xs, 0).
Proof.
  intros Hk Hacc Hxs. revert acc Hacc.
  induction Hxs as [|x xs Hx _ IH]; intros acc Hacc Hbound.
  - simpl. f_equal. ring.
  - rewrite mass_cons in Hbound. pose proof (mass_nonneg xs) as Hpos.
    pose proof (Qcabs_triangle acc x) as Htri.
    pose proof (Qcabs_nonneg acc) as Hacc_pos.
    assert (round x = x) as Hrx by (apply (round_exact k); [done|done|linear]).
    assert (round (acc + x) = acc + x) as Hrs.
    { apply (round_exact k); [done|by apply on_grid_plus|linear]. }
    assert (kahan_step (acc, 0) x = (acc + x, 0)) as Hstep.
    { unfold kahan_step, sub, add.
      replace (x - 0) with x by ring. rewrite Hrx, Hrs.
      replace (acc + x - acc) with x by ring. rewrite Hrx.
      replace (x - x) with (Q2Qc 0) by ring. by rewrite round_0. }
    cbn [foldl]. rewrite Hstep, IH; [|by apply on_grid_plus|linear].
    rewrite total_cons. f_equal. ring.
Qed.

Lemma sum_kahan_exact (xs : list Qc) :
  exactly_summable xs → sum_kahan xs = total xs.
Proof.
  intros (k & Hk & Hgrid & Hmass). unfold sum_kahan.
  rewrite (foldl_kahan_exact k); [simpl; ring|done|apply on_grid_0|done|].
  rewrite (Qcabs_pos 0) by done. linear.
Qed.

Lemma mass_submseteq (ys xs : list Qc) : ys ⊆+ xs → mass ys ≤ mass xs.
Proof.
  induction 1 as [|x l1 l2 _ IH|x y l|x l1 l2 _ IH|l1 l2 l3 _ IH1 _ IH2].
  - done.
  - rewrite !mass_cons. linear.
  - rewrite !mass_cons. linear.
  - rewrite mass_cons. pose proof (Qcabs_nonneg x). linear.
  - by apply (Qcle_trans _ (mass l2)).
Qed.

(** Part of an exactly summable column is exactly summable. *)
Lemma exactly_summable_submseteq (ys xs : list Qc) :
  ys ⊆+ xs → exactly_summable xs → exactly_summable ys.
Proof.
  intros Hsub (k & Hk & Hgrid & Hmass). exists k. split_and!; [done| |].
  - rewrite Forall_forall in Hgrid |- *. intros y Hy.
    apply Hgrid. by eapply elem_of_submseteq.
  - pose proof (mass_submseteq ys xs Hsub). linear.
Qed.

Lemma dropna_sublist {A} (col1 col2 : list (option A)) :
  col1 `sublist_of` col2 → dropna col1 `sublist_of` dropna col2.
Proof.
  unfold dropna.
  induction 1 as [|[x|] l1 l2 _ IH|[x|] l1 l2 _ IH]; simpl;
    [constructor|by constructor|done|by constructor|done].
Qed.

Lemma dropna_filter_sublist {R} (P : R → Prop) `{∀ r, Decision (P r)}
    (val : R → option Qc) (df : list R) :
  dropna (val <$> filter P df) ⊆+ dropna (val <$> df).
Proof.
  apply sublist_submseteq, dropna_sublist, fmap_sublist, sublist_filter.
Qed.

Lemma dropna_fmap {A B} (f : A → B) (col : list (option A)) :
  dropna (fmap (M:=option) f <$> col) = f <$> dropna col.
Proof.
  unfold dropna. induction col as [|[x|] col IH]; [done| |]; csimpl.
  - by rewrite IH.
  - done.
Qed.

Lemma total_le {K} (f g : K → Qc) (ks : list K) :
  (∀ k, f k ≤ g k) → total (f <$> ks) ≤ total (g <$> ks).
Proof.
  intros Hfg. induction ks as [|k ks IH]; [done|].
  rewrite !fmap_cons, !total_cons. specialize (Hfg k). linear.
Qed.

Section groups.
Context {K : Type} `{EqDecision K} {R : Type}.
Variables (key : R → option K) (val : R → option Qc).

(** The sums of disjoint groups of an exactly summable column form an
    exactly summable column. *)
Lemma group_sums_summable (ks : list K) (df : list R) :
  NoDup ks → exactly_summable (dropna (val <$> df)) →
  exactly_summable (group_sum key val df <$> ks).
Proof.
  intros Hks (k & Hk & Hgrid & Hmass). exists k. split_and!; [done| |].
  - apply Forall_fmap, Forall_forall. intros k' _. unfold compose, group_sum, sum.
    apply on_grid_total. rewrite Forall_forall in Hgrid |- *. intros x Hx.
    apply Hgrid. eapply elem_of_submseteq; [exact Hx|].
    apply dropna_filter_sublist.
  - assert (mass (group_sum key val df <$> ks) ≤ mass (dropna (val <$> df)));
      [|linear].
    unfold mass at 1. rewrite <-list_fmap_compose.
    apply (Qcle_trans _
             (total (group_sum key (fmap (M:=option) Qcabs ∘ val) df <$> ks))).
    + apply total_le. intros k'.
      change (Qcabs (group_sum key val df k')
              ≤ group_sum key (fmap (M:=option) Qcabs ∘ val) df k').
      unfold group_sum, sum.
      rewrite (list_fmap_compose val (fmap Qcabs)), dropna_fmap.
      apply Qcabs_total.
    + rewrite total_group_sums by done. unfold sum.
      rewrite (list_fmap_compose val (fmap Qcabs)), dropna_fmap.
      apply mass_submseteq, dropna_filter_sublist.
Qed.

(** A faithful summation computes every group sum exactly. *)
Lemma group_sum_faithful (gsum : list Qc → Qc) (df : list R) (k : K) :
  faithful_sum gsum → exactly_summable (dropna (val <$> df)) →
  gsum (dropna (val <$> filter (λ r, key r = Some k) df)) =
  group_sum key val df k.
Proof.
  intros Hsum Hdf. apply Hsum.
  eapply exactly_summable_submseteq; [|exact Hdf]. apply dropna_filter_sublist.
Qed.
End groups.

Section grouped.
Context {K : Type} `{EqDecision K, KeyOrd K} {R : Type}.
Variables (key : R → option K) (val : R → option Qc).

(** The exact sums of the groups add up to the exact sum over the rows
    that have a key. *)
Lemma group_sums_total (df : list R) :
  total (group_sum key val df <$> group_keys key df) =
  sum (val <$> filter (λ r, is_Some (key r)) df).
Proof.
  rewrite <-(groupby_sums_total key val df). unfold groupby.
  by rewrite <-list_fmap_compose.
Qed.

(** On an exactly summable column, a faithful summation computes the exact
    sum of every group. *)
Lemma grouped_sums_exact (gsum : list Qc → Qc) (df : list R) :
  faithful_sum gsum → exactly_summable (dropna (val <$> df)) →
  ((λ '(k, g), (k, gsum (dropna (val <$> g)))) <$> groupby key df).*2 =
  group_sum key val df <$> group_keys key df.
Proof.
  intros Hsum Hdf. unfold groupby. rewrite <-!list_fmap_compose.
  apply list_fmap_ext. intros i k _. by apply group_sum_faithful.
Qed.

(** The sums of the groups, added in any order by a faithful summation or
    without rounding, give the sum over the rows that have a key. *)
Lemma grouped_sums_add_up (fsum gsum : list Qc → Qc) (df : list R) (l : list Qc) :
  faithful_sum fsum → faithful_sum gsum →
  exactly_summable (dropna (val <$> df)) →
  l ≡ₚ ((λ '(k, g), (k, gsum (dropna (val <$> g)))) <$> groupby key df).*2 →
  total l = sum (val <$> filter (λ r, is_Some (key r)) df) ∧
  fsum l = sum (val <$> filter (λ r, is_Some (key r)) df).
Proof.
  intros Hfsum Hgsum Hdf Hl. rewrite grouped_sums_exact in Hl by done.
  assert (total l = sum (val <$> filter (λ r, is_Some (key r)) df)) as Htotal.
  { by rewrite Hl, group_sums_total. }
  split; [done|]. rewrite <-Htotal. apply Hfsum.
  apply (exactly_summable_submseteq _ (group_sum key val df <$> group_keys key df)).
  - by apply Permutation_submseteq.
  - apply group_sums_summable; [apply NoDup_group_keys|done].
Qed.
End grouped.

Lemma filter_all {A} (P : A → Prop) `{∀ x, Decision (P x)} (l : list A) :
  (∀ x, x ∈ l → P x) → filter P l = l.
Proof.
  induction l as [|a l IH]; intros Hall; [done|].
  rewrite filter_cons_True by (apply Hall; left).
  f_equal. apply IH. intros x Hx. apply Hall. by right.
Qed.

Lemma Qc_of_nat_S (n : nat) : Qc_of_nat (S n) = Qc_of_nat n + 1.
Proof.
  unfold Qc_of_nat. by rewrite Nat2Z.inj_succ, <-Z.add_1_r, Z2Qc_inj_add, Z2Qc_inj_1.
Qed.

Lemma Qc_of_nat_nonzero (n : nat) : n ≠ 0%nat → Qc_of_nat n ≠ 0.
Proof.
  intros Hn. unfold Qc_of_nat. rewrite <-Z2Qc_inj_0, Z2Qc_inj_iff. lia.
Qed.

Lemma total_replicate (n : nat) (c : Qc) :
  total (replicate n c) = c * Qc_of_nat n.
Proof.
  induction n as [|n IH].
  - change (Qc_of_nat 0) with (Qc_of_Z 0). rewrite Z2Qc_inj_0.
    change (total (replicate 0 c)) with (Q2Qc 0). ring.
  - rewrite Qc_of_nat_S.
    change (total (replicate (S n) c)) with (c + total (replicate n c)).
    rewrite IH. ring.
Qed.

(** The mean pandas computes within a group is faithful. *)
Lemma mean_kahan_faithful : faithful_mean mean_kahan.
Proof.
  split; [done|]. intros n p Hsummable. unfold mean_kahan.
  change (replicate (S n) p) with (p :: replicate n p) at 1.
  f_equal. rewrite sum_kahan_exact by done. unfold div.
  rewrite total_replicate, length_replicate.
  replace (p * Qc_of_nat (S n) / Qc_of_nat (S n)) with p.
  - destruct Hsummable as (k & Hk & Hgrid & Hmass).
    apply (round_exact k); [done|by apply Forall_cons_1 in Hgrid as [? _]|].
    change (replicate (S n) p) with (p :: replicate n p) in Hmass.
    rewrite mass_cons in Hmass. pose proof (mass_nonneg (replicate n p)).
    linear.
  - field. by apply Qc_of_nat_nonzero.
Qed.

(** Rounding to two decimals as numpy does it: 0.575 is reported as 0.57,
    because its product with 100 falls just below 57.5; on the exact
    rational, rounding half to even gives 0.58. *)
Lemma around2_below_half :
  around2 (round (Qc_of_Z 575 / Qc_of_Z 1000)) = round (Qc_of_Z 57 / Qc_of_Z 100) ∧
  round2 (Qc_of_Z 575 / Qc_of_Z 1000) = Qc_of_Z 58 / Qc_of_Z 100.
Proof. split; apply Qc_is_canon; by vm_compute. Qed.

(** The mean of three prices 0.8 is 0.8000000000000002 in binary64. *)
Lemma mean_of_equal_prices_drifts :
  mean_kahan (replicate 3 (round (Qc_of_Z 8 / Qc_of_Z 10)))
  = Some (Q2Qc (7205759403792795 # 9007199254740992)) ∧
  round (Qc_of_Z 8 / Qc_of_Z 10) = Q2Qc (3602879701896397 # 4503599627370496).
Proof. split; [f_equal|]; apply Qc_is_canon; by vm_compute. Qed.

End Binary64Facts.

(** ** The example view in quarters *)

Module ViewFacts.
Import Binary64 Binary64Facts.

Lemma quarters_is_clean :
  Clean.keys_present Examples.quarters ∧
  Clean.one_location_per_store Examples.quarters ∧
  Clean.one_price_per_product Examples.quarters ∧
  NoDup (Raw.transaction_id <$> Examples.quarters).
Proof.
  split_and!.
  - intros r Hr. repeat (apply elem_of_cons in Hr as [->|Hr]);
      [| | |by apply elem_of_nil in Hr]; split; by eexists.
  - intros r1 r2 H1 H2.
    repeat (apply elem_of_cons in H1 as [->|H1]);
      repeat (apply elem_of_cons in H2 as [->|H2]);
      try (by apply elem_of_nil in H1); try (by apply elem_of_nil in H2);
      simpl; intros Heq; (reflexivity || discriminate Heq).
  - intros r1 r2 H1 H2.
    repeat (apply elem_of_cons in H1 as [->|H1]);
      repeat (apply elem_of_cons in H2 as [->|H2]);
      try (by apply elem_of_nil in H1); try (by apply elem_of_nil in H2);
      simpl; intros Heq; (reflexivity || discriminate Heq).
  - apply (bool_decide_unpack _). by vm_compute.
Defined.

Lemma quarters_prices_summable pid :
  exactly_summable
    (dropna (Raw.unit_price <$> Spec.rows_of_product pid Examples.quarters)).
Proof.
  apply (exactly_summable_submseteq _
           (dropna (Raw.unit_price <$> Examples.quarters)));
    [apply dropna_filter_sublist|].
  exists 2%nat. split; [lia|]. split.
  - apply (bool_decide_unpack _). by vm_compute.
  - by vm_compute.
Defined.

Lemma quarters_amounts_summable :
  exactly_summable (dropna (Loaded.sheet_amount mul_int <$> Examples.quarters)).
Proof.
  exists 2%nat. split; [lia|]. split.
  - apply (bool_decide_unpack _). by vm_compute.
  - by vm_compute.
Defined.

Lemma quarters_complete r :
  r ∈ Views.quarters →
  is_Some (Joined.store_location r) ∧ is_Some (Joined.product_category r).
Proof.
  intros Hr. vm_compute in Hr.
  repeat (apply elem_of_cons in Hr as [->|Hr]);
    [| | |by apply elem_of_nil in Hr]; split; by eexists.
Defined.

Lemma quarters_summable :
  exactly_summable (dropna (Joined.total_amount <$> Views.quarters)).
Proof.
  exists 2%nat. split; [lia|]. split.
  - apply (bool_decide_unpack _). by vm_compute.
  - by vm_compute.
Defined.

End ViewFacts.

(** ** Ingestion: what a run leaves in the store *)

Module IngestionFacts.
Import Ingestion.

Lemma main_loads env df w :
  loads_succeed env →
  (main env df w).1 = inr () ∧
  db (main env df w).2 =
    {| Sql.stores := Some (frame_for df Sql.stores_tbl);
       Sql.products := Some (frame_for df Sql.products_tbl);
       Sql.transactions := Some (frame_for df Sql.transactions_tbl) |}.
Proof.
  intros [Heng Hsql].
  unfold main, load, verify, get_connection, to_sql, try_except, print,
    execute_count, mbind, script_bind, mret, script_ret; simpl.
  rewrite Heng, !Hsql. simpl.
  unfold verification, verify, try_except, print, execute_count, mbind,
    script_bind, mret, script_ret; simpl.
  destruct (connect_fault env); done.
Qed.

Lemma run_loads env df db0 :
  loads_succeed env →
  run env df db0 =
    {| Sql.stores := Some (frame_for df Sql.stores_tbl);
       Sql.products := Some (frame_for df Sql.products_tbl);
       Sql.transactions := Some (frame_for df Sql.transactions_tbl) |}.
Proof. intros. by apply main_loads. Qed.

End IngestionFacts.

(** ** Referential integrity and idempotence of ingestion *)

Module IntegrityFacts.
Import Ingestion PandasFacts IngestionFacts.

Lemma elem_of_transactions df t :
  t ∈ frame_for df Sql.transactions_tbl → ∃ r, r ∈ df ∧
    Transaction.store_id t = Raw.store_id r ∧
    Transaction.product_id t = Raw.product_id r.
Proof.
  simpl. rewrite elem_of_drop_duplicates. unfold transactions.
  rewrite list_elem_of_fmap. intros (r & -> & Hr). by exists r.
Qed.

Lemma store_of_raw df r :
  r ∈ df → ∃ s, s ∈ frame_for df Sql.stores_tbl ∧
    Store.store_id s = Raw.store_id r ∧
    Store.store_location s = Raw.store_location r.
Proof.
  intros Hr.
  exists {| Store.store_id := Raw.store_id r;
            Store.store_location := Raw.store_location r |}.
  split; [|done].
  simpl. rewrite elem_of_drop_duplicates. unfold stores.
  rewrite elem_of_drop_duplicates, list_elem_of_fmap. by exists r.
Qed.

Lemma product_of_raw df r pid :
  r ∈ df → Raw.product_id r = Some pid →
  ∃ p, p ∈ frame_for df Sql.products_tbl ∧ Product.product_id p = Some pid.
Proof.
  intros Hr Hpid. simpl.
  assert ((pid, filter (λ r, Raw.product_id r = Some pid) df)
          ∈ groupby Raw.product_id df) as Hg.
  { apply elem_of_groupby. split; [|done]. apply elem_of_group_keys. eauto. }
  eexists. split.
  - rewrite elem_of_drop_duplicates. unfold products.
    apply list_elem_of_fmap. eexists. split; [|exact Hg]. reflexivity.
  - done.
Qed.

(** C3. After an ingestion run whose loads succeed, the three tables exist,
    every [store_id] of the transactions table (a missing one included) is
    the [store_id] of a row of the stores table, and every [product_id]
    present in a row of the transactions table is the [product_id] of a row
    of the products table. *)
Theorem referential_integrity env df db0 :
  loads_succeed env →
  ∃ S P T,
    Sql.stores (run env df db0) = Some S ∧
    Sql.products (run env df db0) = Some P ∧
    Sql.transactions (run env df db0) = Some T ∧
    (∀ t, t ∈ T → ∃ s, s ∈ S ∧ Store.store_id s = Transaction.store_id t) ∧
    (∀ t pid, t ∈ T → Transaction.product_id t = Some pid →
       ∃ p, p ∈ P ∧ Product.product_id p = Some pid).
Proof.
  intros Hok. rewrite (run_loads env df db0 Hok). simpl.
  eexists _, _, _. split_and!; try reflexivity.
  - intros t (r & Hr & Hs & _)%elem_of_transactions.
    destruct (store_of_raw df r Hr) as (s & Hin & Hid & _).
    exists s. split; [done|congruence].
  - intros t pid (r & Hr & _ & Hp)%elem_of_transactions Hpid.
    apply (product_of_raw df r pid Hr). congruence.
Qed.

Lemma healthy_loads_succeed : loads_succeed healthy.
Proof. by split. Qed.

Lemma referential_integrity_witness :
  ∃ S P T,
    Sql.stores (run healthy Examples.scenario empty_db) = Some S ∧
    Sql.products (run healthy Examples.scenario empty_db) = Some P ∧
    Sql.transactions (run healthy Examples.scenario empty_db) = Some T ∧
    (∀ t, t ∈ T → ∃ s, s ∈ S ∧ Store.store_id s = Transaction.store_id t) ∧
    (∀ t pid, t ∈ T → Transaction.product_id t = Some pid →
       ∃ p, p ∈ P ∧ Product.product_id p = Some pid).
Proof.
  apply (referential_integrity healthy Examples.scenario empty_db).
  split; reflexivity.
Defined.

(** C4. Ingestion is idempotent: a second successful run on the same source
    leaves the store exactly as the first left it, whatever the store held
    before, so the three row counts read by the verification are unchanged. *)
Theorem ingestion_idempotent env1 env2 df db0 :
  loads_succeed env1 → loads_succeed env2 →
  run env2 df (run env1 df db0) = run env1 df db0 ∧
  ∀ t, Sql.count_rows t (run env2 df (run env1 df db0)) =
       Sql.count_rows t (run env1 df db0) ∧
       Sql.count_rows t (run env1 df db0) = Some (length (frame_for df t)).
Proof.
  intros H1 H2. rewrite !run_loads by done. split; [done|].
  intros []; done.
Qed.

Lemma ingestion_idempotent_witness :
  run healthy Examples.scenario (run healthy Examples.scenario empty_db) =
    run healthy Examples.scenario empty_db ∧
  ∀ t, Sql.count_rows t (run healthy Examples.scenario
                           (run healthy Examples.scenario empty_db)) =
       Sql.count_rows t (run healthy Examples.scenario empty_db) ∧
       Sql.count_rows t (run healthy Examples.scenario empty_db) =
       Some (length (frame_for Examples.scenario t)).
Proof.
  apply (ingestion_idempotent healthy healthy Examples.scenario empty_db);
    split; reflexivity.
Defined.

End IntegrityFacts.

(** ** A failing load *)

Module FailureFacts.
Import Ingestion Report.

Lemma verification_console env w :
  (verification env w).1 = inr () ∧
  db (verification env w).2 = db w ∧
  console (verification env w).2 = console w ++ verification_output env (db w).
Proof.
  unfold verification_output, verification, verify, try_except, print,
    execute_count, raise, mbind, script_bind, mret, script_ret; simpl.
  destruct (connect_fault env); simpl; [by rewrite <-?app_assoc|].
  destruct (Sql.count_rows Sql.stores_tbl (db w)); simpl; [|done].
  destruct (Sql.count_rows Sql.products_tbl (db w)); simpl; [|done].
  destruct (Sql.count_rows Sql.transactions_tbl (db w)); simpl; [|done].
  by rewrite <-!app_assoc.
Qed.

(** Step 5 either prints the three counts or the could-not-verify line. *)
Lemma verification_output_cases env db0 :
  (∃ a b c,
     connect_fault env = None ∧
     Sql.count_rows Sql.stores_tbl db0 = Some a ∧
     Sql.count_rows Sql.products_tbl db0 = Some b ∧
     Sql.count_rows Sql.transactions_tbl db0 = Some c ∧
     verification_output env db0 =
       [ Text (nl +:+ "Database record counts:");
         TextNum "  Stores: " a EmptyString;
         TextNum "  Products: " b EmptyString;
         TextNum "  Transactions: " c EmptyString ]) ∨
  (∃ e, verification_output env db0 = [TextExn "Could not verify: " e]).
Proof.
  unfold verification_output, verification, verify, try_except, print,
    execute_count, raise, mbind, script_bind, mret, script_ret; simpl.
  destruct (connect_fault env); simpl; [right; eauto|].
  destruct (Sql.count_rows Sql.stores_tbl db0); simpl; [|right; eauto].
  destruct (Sql.count_rows Sql.products_tbl db0); simpl; [|right; eauto].
  destruct (Sql.count_rows Sql.transactions_tbl db0); simpl; [|right; eauto].
  left. eexists _, _, _. done.
Qed.

Local Ltac run_script :=
  unfold main, load, report_load_error, get_connection, to_sql, try_except,
    print, raise, mbind, script_bind, mret, script_ret; simpl.

(** Step 5 prints what [Report.verification_report] lists. *)
Lemma verification_report_console env w :
  (verification env w).1 = inr () ∧
  db (verification env w).2 = db w ∧
  console (verification env w).2 = console w ++ verification_report env (db w).
Proof.
  unfold verification_report, verification, verify, try_except, print,
    execute_count, raise, mbind, script_bind, mret, script_ret,
    Sql.count_rows; simpl.
  destruct (connect_fault env); simpl; [by rewrite <-?app_assoc|].
  destruct (Sql.stores (db w)); simpl; [|done].
  destruct (Sql.products (db w)); simpl; [|done].
  destruct (Sql.transactions (db w)); simpl; [|done].
  by rewrite <-!app_assoc.
Qed.

Local Ltac step_report :=
  match goal with
  | |- context [verification ?env ?W] =>
      destruct (verification_report_console env W) as (Hres & Hdb & Hconsole);
      destruct (verification env W) as [[?|[]] w']; simpl in *;
      [discriminate Hres|]; rewrite Hdb, Hconsole
  end.

Local Ltac console_lines :=
  rewrite <-?app_assoc; simpl; unfold transactions; rewrite ?length_fmap;
  reflexivity.

(** C9. When the load of one table raises, the script still completes:
    the tables loaded before it hold their new rows and the tables after it
    are left as they were.  The console shows the preparation lines, the
    progress lines of the loads that succeeded, the error line with the
    exception, the four-item troubleshooting checklist, and then the header
    and the output of the verification step, run against the store as the
    failed load left it, and the closing line. *)
Theorem failed_load_is_contained env df w t e d :
  fails_at env t e d →
  (main env df w).1 = inr () ∧
  (∀ t', (load_order t' < load_order t)%nat →
     Sql.get_table t' (db (main env df w).2) = Some (frame_for df t')) ∧
  (∀ t', (load_order t < load_order t')%nat →
     Sql.get_table t' (db (main env df w).2) = Sql.get_table t' (db w)) ∧
  console (main env df w).2 =
    console w ++ preparation df ++ loaded_before t ++
    [ TextExn (lf +:+ "❌ ERROR: ") e;
      Text (lf +:+ "Troubleshooting:");
      Text "1. Check SQL Server is running";
      Text "2. Verify database 'MavenRoasters' exists";
      Text "3. Confirm tables are created";
      Text "4. Check ODBC Driver 17 is installed";
      Text (lf +:+ "Step 5: Verifying data...") ] ++
    verification_report env (db (main env df w).2) ++
    [ Text (lf +:+ "✓ Data ingestion complete!") ].
Proof.
  intros (Heng & Hfail & Hbefore). destruct t.
  - run_script. rewrite Heng, Hfail. simpl. step_report.
    split_and!; [done|intros []; simpl; lia|destruct d; intros []; simpl; (lia || done)|].
    console_lines.
  - run_script.
    rewrite Heng, (Hbefore Sql.stores_tbl), Hfail by (simpl; lia).
    simpl. step_report.
    split_and!; [done|destruct d; intros []; simpl; (lia || done)
                |destruct d; intros []; simpl; (lia || done)|].
    console_lines.
  - run_script.
    rewrite Heng, (Hbefore Sql.stores_tbl), (Hbefore Sql.products_tbl), Hfail
      by (simpl; lia).
    simpl. step_report.
    split_and!; [done|destruct d; intros []; simpl; (lia || done)
                |destruct d; intros []; simpl; (lia || done)|].
    console_lines.
Qed.

Lemma failed_load_is_contained_witness :
  (main Examples.products_down Examples.scenario
     {| db := Examples.stale_db; console := [] |}).1 = inr () ∧
  Sql.stores (db (main Examples.products_down Examples.scenario
     {| db := Examples.stale_db; console := [] |}).2) =
    Some (frame_for Examples.scenario Sql.stores_tbl) ∧
  Sql.transactions (db (main Examples.products_down Examples.scenario
     {| db := Examples.stale_db; console := [] |}).2) =
    Sql.transactions Examples.stale_db ∧
  console (main Examples.products_down Examples.scenario
     {| db := Examples.stale_db; console := [] |}).2 =
    [ Text (lf +:+ "Step 3: Preparing dimension tables...");
      TextNum "✓ Prepared " 2 " stores";
      TextNum "✓ Prepared " 2 " products";
      TextNum "✓ Prepared " 3 " transactions";
      Text (lf +:+ "Step 4: Loading data to SQL Server...");
      Text "✓ Loaded stores table";
      TextExn (lf +:+ "❌ ERROR: ") "Login timeout expired";
      Text (lf +:+ "Troubleshooting:");
      Text "1. Check SQL Server is running";
      Text "2. Verify database 'MavenRoasters' exists";
      Text "3. Confirm tables are created";
      Text "4. Check ODBC Driver 17 is installed";
      Text (lf +:+ "Step 5: Verifying data...");
      TextExn "Could not verify: " "Invalid object name";
      Text (lf +:+ "✓ Data ingestion complete!") ].
Proof.
  destruct (failed_load_is_contained Examples.products_down Examples.scenario
              {| db := Examples.stale_db; console := [] |}
              Sql.products_tbl "Login timeout expired"%string Dropped)
    as (Hres & Hloaded & Hskipped & Hconsole).
  - split; [reflexivity|]. split; [reflexivity|].
    intros [] Hlt; simpl in Hlt; [reflexivity|lia|lia].
  - split; [exact Hres|]. split; [|split].
    + apply (Hloaded Sql.stores_tbl). simpl. lia.
    + apply (Hskipped Sql.transactions_tbl). simpl. lia.
    + rewrite Hconsole. reflexivity.
Defined.

(** With a stale store and a products load that fails after dropping the
    table: the stores table is new, the transactions table is the stale one,
    and the verification reports that it could not count. *)
Lemma products_down_console :
  console (main Examples.products_down Examples.scenario
             {| db := Examples.stale_db; console := [] |}).2 =
    [ Text (nl +:+ "Step 3: Preparing dimension tables...");
      TextNum "✓ Prepared " 2 " stores";
      TextNum "✓ Prepared " 2 " products";
      TextNum "✓ Prepared " 3 " transactions";
      Text (nl +:+ "Step 4: Loading data to SQL Server...");
      Text "✓ Loaded stores table";
      TextExn error_banner "Login timeout expired" ]
    ++ troubleshooting
    ++ [ step5_banner;
         TextExn "Could not verify: " "Invalid object name";
         complete_banner ].
Proof. reflexivity. Qed.

End FailureFacts.

(** ** The stores and products tables *)

Module DimensionFacts.
Import Ingestion PandasFacts.

Lemma length_one_of_all_equal {A} (l : list A) :
  NoDup l → l ≠ [] → (∀ x y, x ∈ l → y ∈ l → x = y) → length l = 1%nat.
Proof.
  destruct l as [|a [|b l]]; intros Hnd Hne Heq; [done|done|].
  apply NoDup_cons in Hnd as [Ha _]. exfalso. apply Ha.
  rewrite (Heq a b); [left|left|right; left].
Qed.

Lemma filter_fmap_none {A B} (P : B → Prop) `{∀ y, Decision (P y)}
    (f : A → B) (ks : list A) :
  (∀ k', k' ∈ ks → ¬ P (f k')) → filter P (f <$> ks) = [].
Proof.
  induction ks as [|a ks IH]; intros HP; [done|].
  rewrite fmap_cons, filter_cons_False by (apply HP; left).
  apply IH. intros k' Hk'. apply HP. by right.
Qed.

Lemma filter_fmap_unique {A B} (P : B → Prop) `{∀ y, Decision (P y)}
    (f : A → B) (ks : list A) (k : A) :
  NoDup ks → k ∈ ks → (∀ k', k' ∈ ks → P (f k') ↔ k' = k) →
  filter P (f <$> ks) = [f k].
Proof.
  induction 1 as [|a ks Ha Hks IH]; intros Hk HP; [by apply elem_of_nil in Hk|].
  rewrite fmap_cons, filter_cons. destruct (decide (P (f a))) as [Hy|Hn].
  - assert (a = k) as <- by (apply HP; [left|done]).
    f_equal. apply filter_fmap_none. intros k' Hk' HPk'.
    apply HP in HPk'; [|by right]. by subst.
  - apply IH.
    + apply elem_of_cons in Hk as [->|Hk]; [|done].
      exfalso. apply Hn. apply HP; [left|done].
    + intros k' Hk'. apply HP. by right.
Qed.

Lemma stores_frame df : frame_for df Sql.stores_tbl = stores df.
Proof. apply drop_duplicates_idemp. Qed.

Lemma elem_of_stores df s :
  s ∈ stores df ↔ ∃ r, r ∈ df ∧
    s = {| Store.store_id := Raw.store_id r;
           Store.store_location := Raw.store_location r |}.
Proof.
  unfold stores. rewrite elem_of_drop_duplicates, list_elem_of_fmap. naive_solver.
Qed.

(** C8 as worded fails: a store id recorded under two location names gets
    two rows in the stores table. *)
Lemma stores_two_rows_for_one_id : ¬ Spec.one_row_per_store_id Examples.renamed_store.
Proof.
  intros Hone. specialize (Hone (Some 3%Z)).
  assert (Some 3%Z ∈ Raw.store_id <$> Examples.renamed_store) as Hin by left.
  apply Hone in Hin. vm_compute in Hin. discriminate Hin.
Qed.

(** C8, amended. The stores table holds exactly one row per distinct pair
    (store_id, store_location) of the raw data; the second [drop_duplicates]
    at load time changes nothing; and when every store id of the raw data
    comes with a single location, the table holds exactly one row per
    distinct store id. *)
Theorem stores_one_row_per_pair df :
  NoDup (frame_for df Sql.stores_tbl) ∧
  (∀ s, s ∈ frame_for df Sql.stores_tbl ↔
        ∃ r, r ∈ df ∧ Store.store_id s = Raw.store_id r ∧
                      Store.store_location s = Raw.store_location r) ∧
  ((∀ r1 r2, r1 ∈ df → r2 ∈ df → Raw.store_id r1 = Raw.store_id r2 →
             Raw.store_location r1 = Raw.store_location r2) →
   Spec.one_row_per_store_id df).
Proof.
  split_and!.
  - apply NoDup_drop_duplicates.
  - intros [sid loc]. rewrite stores_frame, elem_of_stores. simpl. naive_solver.
  - intros Hfd sid (r & -> & Hr)%list_elem_of_fmap.
    apply length_one_of_all_equal.
    + apply NoDup_filter, NoDup_drop_duplicates.
    + intros Hnil. eapply (filter_nil_not_elem_of _ _ _ Hnil); [|rewrite stores_frame; apply elem_of_stores; eauto]. done.
    + intros [i1 l1] [i2 l2].
      rewrite !list_elem_of_filter, stores_frame, !elem_of_stores. simpl.
      intros [-> (r1 & Hr1 & [= Hi1 ->])] [-> (r2 & Hr2 & [= Hi2 ->])].
      f_equal. apply Hfd; congruence.
Qed.

Lemma stores_one_row_per_pair_witness : Spec.one_row_per_store_id Examples.scenario.
Proof.
  apply (stores_one_row_per_pair Examples.scenario).
  intros r1 r2 H1 H2.
  repeat (apply elem_of_cons in H1 as [->|H1]);
    repeat (apply elem_of_cons in H2 as [->|H2]);
    try (by apply elem_of_nil in H1); try (by apply elem_of_nil in H2);
    simpl; intros Heq; (reflexivity || discriminate Heq).
Defined.

(** *** Products *)

Lemma products_ids df :
  Product.product_id <$> products df = Some <$> group_keys Raw.product_id df.
Proof.
  unfold products, groupby. rewrite <-!list_fmap_compose. done.
Qed.

Lemma NoDup_products df : NoDup (products df).
Proof.
  apply (NoDup_fmap_1 Product.product_id). rewrite products_ids.
  apply (NoDup_fmap_2 _), NoDup_group_keys.
Qed.

Lemma products_frame df : frame_for df Sql.products_tbl = products df.
Proof. apply drop_duplicates_NoDup, NoDup_products. Qed.

(** The product ids of the table are the ids present in the raw data. *)
Lemma elem_of_products_ids df p :
  p ∈ frame_for df Sql.products_tbl →
  ∃ pid, Product.product_id p = Some pid ∧ Spec.rows_of_product pid df ≠ [].
Proof.
  rewrite products_frame. intros Hp.
  apply (list_elem_of_fmap_2 Product.product_id) in Hp.
  rewrite products_ids in Hp.
  apply list_elem_of_fmap in Hp as (pid & Hpid & Hkey).
  exists pid. split; [done|].
  apply elem_of_group_keys in Hkey as (r & Hr & Hk).
  intros Hnil. by eapply (filter_nil_not_elem_of _ _ r Hnil).
Qed.





End DimensionFacts.

(** ** The three-transaction scenario, end to end *)

Module ScenarioFacts.

Local Ltac decide_by_computation :=
  apply (bool_decide_unpack _); vm_compute; exact I.

(** C1. Ingesting the three-row scenario into an empty store and reading the
    joined view back gives a grand total revenue of 14, a revenue of 11 for
    store A and of 3 for store B in the store statistics, and a stored unit
    price of 3 for product X (product id 1). *)
Theorem scenario_end_to_end :
  ∃ view P,
    Query.read_sql
      (Ingestion.run Ingestion.healthy Examples.scenario Ingestion.empty_db)
      = Some view ∧
    Sql.products
      (Ingestion.run Ingestion.healthy Examples.scenario Ingestion.empty_db)
      = Some P ∧
    length view = 3%nat ∧
    Eda.total_revenue view = Qc_of_Z 14 ∧
    (λ s, (Eda.store_location s, Eda.Total_Revenue s)) <$> Eda.store_stats view
      = [("A"%string, Qc_of_Z 11); ("B"%string, Qc_of_Z 3)] ∧
    Product.unit_price <$> filter (λ p, Product.product_id p = Some 1%Z) P
      = [Some (Qc_of_Z 3)].
Proof.
  eexists _, _. split; [vm_compute; reflexivity|].
  split; [vm_compute; reflexivity|].
  split_and!; decide_by_computation.
Qed.

End ScenarioFacts.

(** ** Aggregate consistency of the exploration statistics *)

Module EdaFacts.
Import PandasFacts Binary64 Binary64Facts.

(** C2 as worded fails on the reported statistics, which are rounded to two
    decimals group by group: three stores with one third each report 0.99 in
    total, their single category reports 1.00. *)
Lemma rounded_sums_disagree :
  ¬ Spec.aggregate_consistent (Examples.view_of Examples.thirds).
Proof.
  intros [Hsc _]. apply (f_equal this) in Hsc. vm_compute in Hsc. discriminate Hsc.
Qed.

(** The hypotheses of the amended statement are needed as well: a row
    without store location belongs to no store group, so the store sums miss
    its amount even before rounding. *)
Lemma missing_location_drops_revenue :
  total (Eda.Total_Revenue
         <$> Eda.store_agg (Examples.view_of Examples.unnamed_store))
    = Qc_of_Z 6 ∧
  Eda.total_revenue (Examples.view_of Examples.unnamed_store) = Qc_of_Z 9.
Proof. split; apply Qc_is_canon; by vm_compute. Qed.

(** C2, amended. In a joined view where no row lacks its store location or
    its product category, and whose amounts are exactly summable in
    binary64, the per-store sums of [total_amount] and the per-category
    sums, both taken before the rounding to two decimals and added up in any
    order, give the grand total revenue, whichever faithful summations
    compute the sums. *)
Theorem group_sums_add_up fsum gsum df :
  faithful_sum fsum → faithful_sum gsum →
  (∀ r, r ∈ df → is_Some (Joined.store_location r)) →
  (∀ r, r ∈ df → is_Some (Joined.product_category r)) →
  exactly_summable (dropna (Joined.total_amount <$> df)) →
  (∀ l, l ≡ₚ (Figures.store_sums gsum df).*2 →
     total l = Figures.total_revenue fsum df ∧
     fsum l = Figures.total_revenue fsum df) ∧
  (∀ l, l ≡ₚ (Figures.category_sums gsum df).*2 →
     total l = Figures.total_revenue fsum df ∧
     fsum l = Figures.total_revenue fsum df).
Proof.
  intros Hfsum Hgsum Hstore Hcat Hdf.
  assert (Figures.total_revenue fsum df = sum (Joined.total_amount <$> df)) as ->.
  { by apply Hfsum. }
  split; intros l Hl.
  - destruct (grouped_sums_add_up Joined.store_location Joined.total_amount
                fsum gsum df l) as [Htotal Hsum]; try done.
    by rewrite (filter_all _ df Hstore) in Htotal, Hsum.
  - destruct (grouped_sums_add_up Joined.product_category Joined.total_amount
                fsum gsum df l) as [Htotal Hsum]; try done.
    by rewrite (filter_all _ df Hcat) in Htotal, Hsum.
Qed.

Lemma group_sums_add_up_witness :
  Figures.total_revenue sum_sequential Views.quarters = Qc_of_Z 85 / Qc_of_Z 4 ∧
  total (Figures.store_sums sum_kahan Views.quarters).*2
    = Qc_of_Z 85 / Qc_of_Z 4 ∧
  sum_sequential (Figures.category_sums sum_kahan Views.quarters).*2
    = Qc_of_Z 85 / Qc_of_Z 4.
Proof.
  destruct (group_sums_add_up sum_sequential sum_kahan Views.quarters
              sum_sequential_exact sum_kahan_exact
              (λ r Hr, proj1 (ViewFacts.quarters_complete r Hr))
              (λ r Hr, proj2 (ViewFacts.quarters_complete r Hr))
              ViewFacts.quarters_summable) as [Hstores Hcats].
  assert (Figures.total_revenue sum_sequential Views.quarters
          = Qc_of_Z 85 / Qc_of_Z 4) as Hgrand
    by (apply Qc_is_canon; by vm_compute).
  split; [done|]. rewrite <-Hgrand. split.
  - by apply Hstores.
  - by apply Hcats.
Defined.

(** The hypothesis on the amounts is needed: for the sales 0.1, 0.2 and
    0.3 the store sums are 0.30000000000000004 and 0.3 and add up to
    0.6000000000000001, the category sums are 0.1 and 0.5 and add up to 0.6,
    which is also what the compensated sum of the three amounts gives. *)
Lemma unrounded_float_sums_disagree :
  sum_sequential (Figures.store_sums sum_kahan Examples.tenths).*2
    = Q2Qc (1351079888211149 # 2251799813685248) ∧
  sum_sequential (Figures.category_sums sum_kahan Examples.tenths).*2
    = Q2Qc (5404319552844595 # 9007199254740992) ∧
  Figures.total_revenue sum_sequential Examples.tenths
    = Q2Qc (1351079888211149 # 2251799813685248) ∧
  Figures.total_revenue sum_kahan Examples.tenths
    = Q2Qc (5404319552844595 # 9007199254740992).
Proof. split_and!; apply Qc_is_canon; by vm_compute. Qed.

End EdaFacts.

(** ** Centered rolling means *)

Module RollingFacts.
Import Modelling.






(** The example series 100, ..., 100, 200: only positions 3 and 4 are
    defined, with means 100 and 800/7. *)
Lemma MA_7_eight_days :
  MA_7 Examples.eight_days =
    [None; None; None; Some (Qc_of_Z 100); Some (Qc_of_Z 800 / Qc_of_Z 7);
     None; None; None].
Proof. apply (bool_decide_unpack _). by vm_compute. Qed.

End RollingFacts.

(** ** The ordered train/test split *)

Module SplitFacts.
Import Modelling PandasFacts.

Lemma n_test_fifth (N : nat) :
  Sklearn.n_test (Q2Qc (2 # 10)) N = Z.to_nat (- (- (2 * Z.of_nat N) / 10))%Z.
Proof.
  unfold Sklearn.n_test. f_equal.
  transitivity (Qceiling ((2 # 10) * inject_Z (Z.of_nat N))%Q).
  - apply Qceiling_comp. simpl. rewrite !Qred_correct. reflexivity.
  - reflexivity.
Qed.

(** The test segment has [ceil (N / 5)] rows. *)
Lemma n_test_ceiling (N : nat) :
  (N ≤ 5 * Sklearn.n_test (Q2Qc (2 # 10)) N < N + 5)%nat.
Proof.
  rewrite n_test_fifth. Z.div_mod_to_equations. lia.
Qed.

Lemma key_le_Z (x y : Z) : key_le x y ↔ (x ≤ y)%Z.
Proof. unfold key_le, key_leb, Z_KeyOrd. by rewrite Is_true_true, Z.leb_le. Qed.

Local Instance key_le_Z_trans : Transitive (key_le (K:=Z)).
Proof. intros x y z. rewrite !key_le_Z. lia. Qed.

Local Instance key_le_Z_total : Total (key_le (K:=Z)).
Proof. intros x y. rewrite !key_le_Z. lia. Qed.

Lemma daily_dates df :
  date <$> daily_data df = group_keys Joined.transaction_date df.
Proof.
  unfold daily_data, groupby. rewrite <-!list_fmap_compose. apply list_fmap_id.
Qed.

(** [groupby('date')] returns the days in strictly increasing order. *)
Lemma daily_dates_sorted df : StronglySorted key_le (date <$> daily_data df).
Proof. rewrite daily_dates. apply (StronglySorted_merge_sort _). Qed.

Lemma daily_dates_NoDup df : NoDup (date <$> daily_data df).
Proof. rewrite daily_dates. apply NoDup_group_keys. Qed.

Lemma daily_data_ascending df n a b :
  a ∈ take n (daily_data df) → b ∈ drop n (daily_data df) →
  (date a < date b)%Z.
Proof.
  intros Ha%(list_elem_of_fmap_2 date) Hb%(list_elem_of_fmap_2 date).
  rewrite fmap_take in Ha. rewrite fmap_drop in Hb.
  pose proof (daily_dates_sorted df) as Hsorted.
  pose proof (daily_dates_NoDup df) as Hnodup.
  rewrite <-(take_drop n (date <$> daily_data df)) in Hsorted, Hnodup.
  pose proof (StronglySorted_app_1_elem_of _ _ _ _ _ Hsorted Ha Hb) as Hle.
  apply key_le_Z in Hle.
  apply NoDup_app in Hnodup as (_ & Hne & _).
  specialize (Hne _ Ha). assert (date a ≠ date b) by congruence. lia.
Qed.

(** C5 as worded fails for a series of a single day: the training set
    would be empty and [train_test_split] refuses to split. *)
Lemma split_refuses_single_day :
  ¬ Spec.split_always_succeeds (Examples.view_of Examples.one_day).
Proof.
  intros (X_train & X_test & y_train & y_test & Hsplit).
  vm_compute in Hsplit. discriminate Hsplit.
Qed.

(** C5, amended. For a daily series of [N >= 2] days the split succeeds
    without shuffling: the test segment is the last [ceil (N / 5)] days,
    the training segment the [N - ceil (N / 5)] days before them, and every
    training day is strictly earlier than every test day.  For [N < 2] the
    split raises. *)
Theorem split_is_chronological df :
  let dd := daily_data df in
  let N := length dd in
  let n_test := Sklearn.n_test (Q2Qc (2 # 10)) N in
  let n_train := (N - n_test)%nat in
  let origin := default 0%Z (min_date dd) in
  (N ≤ 5 * n_test < N + 5)%nat ∧
  ((N < 2)%nat → split dd = inl Sklearn.EmptyTrainSet) ∧
  ((2 ≤ N)%nat →
     (0 < n_train)%nat ∧ (n_train + n_test = N)%nat ∧
     take n_train dd ++ drop n_train dd = dd ∧
     split dd =
       inr (feature_row origin <$> take n_train dd,
            feature_row origin <$> drop n_train dd,
            revenue <$> take n_train dd,
            revenue <$> drop n_train dd) ∧
     ∀ a b, a ∈ take n_train dd → b ∈ drop n_train dd → (date a < date b)%Z).
Proof.
  intros dd N n_test n_train origin.
  pose proof (n_test_ceiling N) as Hceil. fold n_test in Hceil.
  split; [done|].
  unfold split, Sklearn.train_test_split, X, y.
  rewrite !length_fmap. fold N n_test n_train origin.
  rewrite decide_False by (intros Hne; by apply Hne).
  split.
  - intros Hsmall. rewrite decide_False by (unfold n_train; lia).
    by rewrite decide_True by (unfold n_train; lia).
  - intros Hbig.
    assert (n_train + n_test = N)%nat as Hsum by (unfold n_train; lia).
    assert (0 < n_train)%nat as Hpos by (unfold n_train; lia).
    split_and!; [done|done|apply take_drop| |apply daily_data_ascending].
    rewrite !decide_False by lia.
    rewrite <-!fmap_drop, <-!fmap_take.
    rewrite (take_ge (drop n_train dd)) by (rewrite length_drop; fold N; lia).
    done.
Qed.

Lemma split_is_chronological_witness :
  (2 ≤ length (daily_data (Examples.view_of Examples.six_days)))%nat ∧
  Sklearn.n_test (Q2Qc (2 # 10)) 6 = 2%nat ∧
  Forall (λ a, Forall (λ b, (date a < date b)%Z)
                 (drop 4 (daily_data (Examples.view_of Examples.six_days))))
    (take 4 (daily_data (Examples.view_of Examples.six_days))).
Proof.
  assert (2 ≤ length (daily_data (Examples.view_of Examples.six_days)))%nat
    as Hbig by (vm_compute; lia).
  split; [exact Hbig|]. split; [reflexivity|].
  destruct (split_is_chronological (Examples.view_of Examples.six_days))
    as (_ & _ & Hsplit).
  destruct (Hsplit Hbig) as (_ & _ & _ & _ & Horder).
  apply Forall_forall. intros a Ha. apply Forall_forall. intros b Hb.
  by apply Horder.
Defined.

End SplitFacts.

(** ** The naive per-store forecast *)

Module ForecastFacts.
Import Modelling PandasFacts.













End ForecastFacts.

(** * Further properties of the scripts *)

(** ** Validation of the sheet and what it implies for the tables *)

Module ValidationFacts.
Import Validation Ingestion PandasFacts.

Lemma isnull_is_Some {A} (cell : option A) : ¬ Is_true (isnull cell) ↔ is_Some cell.
Proof.
  destruct cell as [x|]; simpl.
  - split; [intros _; by exists x|tauto].
  - split; [tauto|]. intros [x Hx]. discriminate Hx.
Qed.

Lemma complete_columns r :
  complete r ↔ Forall (λ c, ¬ Is_true (c.2 r)) columns.
Proof.
  unfold complete, columns. rewrite !Forall_cons, Forall_nil. simpl.
  rewrite !isnull_is_Some. tauto.
Qed.

Lemma filter_length_pos {A} (P : A → Prop) `{∀ x, Decision (P x)} (l : list A) :
  length (filter P l) ≠ 0%nat ↔ ∃ x, x ∈ l ∧ P x.
Proof.
  split.
  - destruct (filter P l) as [|x k] eqn:Hf; [done|]. intros _.
    assert (x ∈ filter P l) as Hx by (rewrite Hf; left).
    apply list_elem_of_filter in Hx. exists x. tauto.
  - intros (x & Hx & HP) Hlen. apply length_zero_iff_nil in Hlen.
    by eapply (filter_nil_not_elem_of _ _ x Hlen).
Qed.

Lemma some_count_nonzero df :
  Exists (λ m, m.2 ≠ 0%nat) (isnull_sum df) ↔
  ∃ r c, r ∈ df ∧ c ∈ columns ∧ Is_true (c.2 r).
Proof.
  unfold isnull_sum. rewrite Exists_exists. setoid_rewrite list_elem_of_fmap.
  split.
  - intros (m & (c & -> & Hc) & Hm). simpl in Hm.
    apply filter_length_pos in Hm as (r & Hr & Hnull). eauto.
  - intros (r & c & Hr & Hc & Hnull). eexists. split; [by exists c|].
    simpl. apply filter_length_pos. eauto.
Qed.

Lemma all_clear_iff_complete df :
  missing_values df = NoMissingValues ↔ Forall complete df.
Proof.
  unfold missing_values.
  destruct (decide (Exists (λ m, m.2 ≠ 0%nat) (isnull_sum df))) as [Hex|Hno].
  - split; [done|]. intros Hall. exfalso.
    apply some_count_nonzero in Hex as (r & c & Hr & Hc & Hnull).
    rewrite Forall_forall in Hall. apply Hall, complete_columns in Hr.
    rewrite Forall_forall in Hr. by apply (Hr c).
  - split; [|done]. intros _. apply Forall_forall. intros r Hr.
    apply complete_columns, Forall_forall. intros c Hc Hnull.
    apply Hno, some_count_nonzero. eauto.
Qed.

(** X1. The missing-value check of step 2 prints the all-clear exactly when
    every cell of every row of the sheet is present; otherwise it prints the
    warning, and the columns it lists are those with a missing cell. *)
Theorem census_all_clear df :
  (missing_values df = NoMissingValues ↔ Forall complete df) ∧
  ∀ missing, missing_values df = MissingValuesFound missing →
    missing ≠ [] ∧
    ∀ c n, (c, n) ∈ missing ↔ (0 < n)%nat ∧ (c, n) ∈ isnull_sum df.
Proof.
  split; [apply all_clear_iff_complete|].
  unfold missing_values. intros missing.
  destruct (decide (Exists (λ m, m.2 ≠ 0%nat) (isnull_sum df))) as [Hex|];
    [|done].
  intros [= <-]. split.
  - apply Exists_exists in Hex as ([c n] & Hin & Hn). simpl in Hn.
    intros Hnil.
    apply (filter_nil_not_elem_of _ _ (c, n) Hnil); [simpl; lia|done].
  - intros c n. by rewrite list_elem_of_filter.
Qed.







Lemma length_group_keys {K R} `{EqDecision K, KeyOrd K}
    (key : R → option K) (df : list R) :
  length (group_keys key df) = nunique (key <$> df).
Proof. unfold group_keys, nunique. by rewrite merge_sort_Permutation. Qed.

(** X3. The number of unique products that step 2 reports is the number of
    rows of the products table, prepared and loaded; the number of unique
    stores it reports, which counts location names, is at most the number
    of rows of the stores table. *)
Theorem validation_counts_match_tables df :
  unique_products df = length (products df) ∧
  length (frame_for df Sql.products_tbl) = length (products df) ∧
  (unique_stores df ≤ length (stores df))%nat.
Proof.
  split_and!.
  - unfold unique_products, products, groupby.
    by rewrite !length_fmap, length_group_keys.
  - by rewrite DimensionFacts.products_frame.
  - unfold unique_stores, nunique.
    rewrite <-(length_fmap Some), <-(length_fmap Store.store_location (stores df)).
    apply submseteq_length, NoDup_submseteq.
    + apply (NoDup_fmap_2 _), NoDup_drop_duplicates.
    + intros o (loc & -> & Hloc)%list_elem_of_fmap.
      apply elem_of_drop_duplicates, elem_of_dropna in Hloc.
      apply list_elem_of_fmap in Hloc as (r & Hr & Hin).
      apply list_elem_of_fmap.
      exists {| Store.store_id := Raw.store_id r;
                Store.store_location := Raw.store_location r |}.
      split; [done|]. apply DimensionFacts.elem_of_stores. eauto.
Qed.

End ValidationFacts.

(** ** The load and the verification, beyond a failing table *)

Module LoadFacts.
Import Ingestion Report PandasFacts.

Local Ltac run_script :=
  unfold main, load, report_load_error, get_connection, to_sql, try_except,
    print, raise, mbind, script_bind, mret, script_ret; simpl.

Local Ltac step_verification :=
  match goal with
  | |- context [verification ?env ?W] =>
      destruct (FailureFacts.verification_console env W)
        as (Hres & Hdb & Hconsole);
      destruct (verification env W) as [[?|[]] w']; simpl in *;
      [discriminate Hres|]; rewrite ?Hdb, ?Hconsole
  end.

Local Ltac step_report :=
  match goal with
  | |- context [verification ?env ?W] =>
      destruct (FailureFacts.verification_report_console env W)
        as (Hres & Hdb & Hconsole);
      destruct (verification env W) as [[?|[]] w']; simpl in *;
      [discriminate Hres|]; rewrite ?Hdb, ?Hconsole
  end.

(** X4. When creating the engine raises, no table of the store is touched:
    the script prints the preparation lines, the error line with the
    exception and the four-item troubleshooting checklist, runs the
    verification against the store as it was, and completes. *)
Theorem engine_failure_touches_nothing env df w e :
  engine_fault env = Some e →
  (main env df w).1 = inr () ∧
  db (main env df w).2 = db w ∧
  console (main env df w).2 =
    console w ++
    [ Text (lf +:+ "Step 3: Preparing dimension tables...");
      TextNum "✓ Prepared " (length (stores df)) " stores";
      TextNum "✓ Prepared " (length (products df)) " products";
      TextNum "✓ Prepared " (length df) " transactions";
      Text (lf +:+ "Step 4: Loading data to SQL Server...");
      TextExn (lf +:+ "❌ ERROR: ") e;
      Text (lf +:+ "Troubleshooting:");
      Text "1. Check SQL Server is running";
      Text "2. Verify database 'MavenRoasters' exists";
      Text "3. Confirm tables are created";
      Text "4. Check ODBC Driver 17 is installed";
      Text (lf +:+ "Step 5: Verifying data...") ] ++
    verification_report env (db w) ++
    [ Text (lf +:+ "✓ Data ingestion complete!") ].
Proof.
  intros Heng. run_script. rewrite Heng. simpl. step_report.
  split_and!; [done|done|].
  rewrite <-?app_assoc. simpl. unfold transactions. by rewrite length_fmap.
Qed.

Lemma engine_failure_touches_nothing_witness :
  db (main {| engine_fault := Some "Data source name not found"%string;
              to_sql_fault := λ _, None;
              connect_fault := None |}
        Examples.scenario {| db := Examples.stale_db; console := [] |}).2
  = Examples.stale_db ∧
  console (main {| engine_fault := Some "Data source name not found"%string;
                   to_sql_fault := λ _, None;
                   connect_fault := None |}
             Examples.scenario {| db := Examples.stale_db; console := [] |}).2
  = [ Text (lf +:+ "Step 3: Preparing dimension tables...");
      TextNum "✓ Prepared " 2 " stores";
      TextNum "✓ Prepared " 2 " products";
      TextNum "✓ Prepared " 3 " transactions";
      Text (lf +:+ "Step 4: Loading data to SQL Server...");
      TextExn (lf +:+ "❌ ERROR: ") "Data source name not found";
      Text (lf +:+ "Troubleshooting:");
      Text "1. Check SQL Server is running";
      Text "2. Verify database 'MavenRoasters' exists";
      Text "3. Confirm tables are created";
      Text "4. Check ODBC Driver 17 is installed";
      Text (lf +:+ "Step 5: Verifying data...") ] ++
    verification_report
      {| engine_fault := Some "Data source name not found"%string;
         to_sql_fault := λ _, None;
         connect_fault := None |} Examples.stale_db ++
    [ Text (lf +:+ "✓ Data ingestion complete!") ].
Proof.
  destruct (engine_failure_touches_nothing
              {| engine_fault := Some "Data source name not found"%string;
                 to_sql_fault := λ _, None;
                 connect_fault := None |}
              Examples.scenario
              {| db := Examples.stale_db; console := [] |}
              "Data source name not found"%string eq_refl)
    as (_ & Hdb & Hconsole).
  split; [exact Hdb|exact Hconsole].
Defined.

Local Ltac split_cases H :=
  lazymatch type of H with
  | _ ∨ _ => destruct H as [H|H]; split_cases H
  | _ => idtac
  end.

Lemma banner_not_in_verification env db0 :
  success_banner ∉ verification_output env db0.
Proof.
  destruct (FailureFacts.verification_output_cases env db0)
    as [(a & b & c & _ & _ & _ & _ & ->)|(e' & ->)];
    rewrite ?elem_of_cons, elem_of_nil; intros H; split_cases H;
    first [unfold success_banner in H; simpl in H; discriminate H | done].
Qed.

Local Ltac banner_absent :=
  rewrite ?elem_of_app, ?elem_of_cons, ?elem_of_nil;
  intros H; split_cases H;
  lazymatch type of H with
  | _ ∈ verification_output ?env ?db0 =>
      by apply banner_not_in_verification in H
  | False => destruct H
  | _ => unfold success_banner, step5_banner, complete_banner, error_banner in H;
         simpl in H; discriminate H
  end.

(** X5. Starting from an empty console, the success banner is printed
    exactly when the engine and the three table loads all succeed: after
    any failure in step 4 it is absent, whatever the verification prints. *)
Theorem success_banner_iff_loaded env df db0 :
  success_banner ∈ console (main env df {| db := db0; console := [] |}).2 ↔
  loads_succeed env.
Proof.
  unfold loads_succeed.
  destruct (engine_fault env) as [e|] eqn:Heng.
  { run_script. rewrite Heng. simpl. step_verification.
    split; [banner_absent|by intros [? _]]. }
  destruct (to_sql_fault env Sql.stores_tbl) as [[e d]|] eqn:Hs.
  { run_script. rewrite Heng, Hs. simpl. step_verification.
    split; [banner_absent|]. intros [_ Hall]. by rewrite Hall in Hs. }
  destruct (to_sql_fault env Sql.products_tbl) as [[e d]|] eqn:Hp.
  { run_script. rewrite Heng, Hs, Hp. simpl. step_verification.
    split; [banner_absent|]. intros [_ Hall]. by rewrite Hall in Hp. }
  destruct (to_sql_fault env Sql.transactions_tbl) as [[e d]|] eqn:Ht.
  { run_script. rewrite Heng, Hs, Hp, Ht. simpl. step_verification.
    split; [banner_absent|]. intros [_ Hall]. by rewrite Hall in Ht. }
  run_script. rewrite Heng, Hs, Hp, Ht. simpl. step_verification.
  split.
  - intros _. split; [done|]. by intros [].
  - intros _. rewrite !elem_of_app, !elem_of_cons. unfold success_banner. tauto.
Qed.

Lemma length_drop_duplicates_from {A} `{EqDecision A} (seen l : list A) :
  (length (drop_duplicates_from seen l) ≤ length l)%nat.
Proof.
  revert seen. induction l as [|a l IH]; intros seen; simpl; [done|].
  destruct (decide (a ∈ seen)); simpl.
  - specialize (IH seen). lia.
  - specialize (IH (a :: seen)). lia.
Qed.

Lemma drop_duplicates_from_full {A} `{EqDecision A} (seen l : list A) :
  length (drop_duplicates_from seen l) = length l →
  drop_duplicates_from seen l = l.
Proof.
  revert seen. induction l as [|a l IH]; intros seen; simpl; [done|].
  destruct (decide (a ∈ seen)); simpl.
  - pose proof (length_drop_duplicates_from seen l). lia.
  - intros [= Hlen]. f_equal. by apply IH.
Qed.

(** Dropping duplicates keeps the length exactly when there is none. *)
Lemma length_drop_duplicates {A} `{EqDecision A} (l : list A) :
  (length (drop_duplicates l) ≤ length l)%nat ∧
  (length (drop_duplicates l) = length l ↔ NoDup l).
Proof.
  split; [apply length_drop_duplicates_from|]. split.
  - intros Hlen%drop_duplicates_from_full. fold (drop_duplicates l) in Hlen.
    rewrite <-Hlen. apply NoDup_drop_duplicates.
  - intros Hnd. by rewrite drop_duplicates_NoDup.
Qed.

(** X6. The number of transactions loaded never exceeds the number
    prepared (the rows of the sheet); the two agree exactly when no two rows
    of the sheet have the same six transaction columns, and in particular
    when the transaction ids of the sheet are pairwise distinct. *)
Theorem loaded_transactions_count df :
  length (transactions df) = length df ∧
  (length (frame_for df Sql.transactions_tbl) ≤ length df)%nat ∧
  (length (frame_for df Sql.transactions_tbl) = length df ↔
   NoDup (transactions df)) ∧
  (NoDup (Raw.transaction_id <$> df) →
   frame_for df Sql.transactions_tbl = transactions df).
Proof.
  assert (length (transactions df) = length df) as Hlen
    by (unfold transactions; apply length_fmap).
  destruct (length_drop_duplicates (transactions df)) as [Hle Hiff].
  simpl. rewrite <-Hlen. split_and!; [done|done|done|].
  intros Hids. apply drop_duplicates_NoDup.
  apply (NoDup_fmap_1 Transaction.transaction_id).
  unfold transactions. by rewrite <-list_fmap_compose.
Qed.

Lemma loaded_transactions_count_witness :
  frame_for Examples.scenario Sql.transactions_tbl = transactions Examples.scenario.
Proof.
  apply (loaded_transactions_count Examples.scenario).
  apply (bool_decide_unpack _). by vm_compute.
Defined.

(** X7. After a run whose loads succeed, a verification that can connect
    reads back the counts of the rows just loaded: the prepared numbers of
    stores and products, and the number of distinct transaction rows. *)
Theorem verification_reads_back env df db0 :
  loads_succeed env → connect_fault env = None →
  verification_output env (run env df db0) =
    record_counts (length (stores df)) (length (products df))
      (length (drop_duplicates (transactions df))).
Proof.
  intros Hok Hconn. rewrite (IngestionFacts.run_loads env df db0 Hok).
  unfold verification_output, verification, verify, try_except, print,
    execute_count, raise, mbind, script_bind, mret, script_ret.
  rewrite Hconn. cbn -[frame_for].
  by rewrite DimensionFacts.products_frame, DimensionFacts.stores_frame.
Qed.

Lemma verification_reads_back_witness :
  verification_output healthy (run healthy Examples.scenario Examples.stale_db) =
    record_counts 2 2 3.
Proof.
  apply (verification_reads_back healthy Examples.scenario Examples.stale_db);
    [split|]; reflexivity.
Defined.

End LoadFacts.

(** ** From the sheet to the joined view *)

Module JoinFacts.
Import Ingestion Clean PandasFacts Binary64 Binary64Facts.

Lemma join_cons t T S P :
  Query.join (t :: T) S P =
  (s ← filter (λ s, Query.on_eq (Transaction.store_id t) (Store.store_id s)) S;
   p ← filter (λ p, Query.on_eq (Transaction.product_id t) (Product.product_id p)) P;
   [Query.select t s p]) ++ Query.join T S P.
Proof. done. Qed.

(** A transaction without a matching store, or without a matching product,
    gives no row. *)
Lemma join_cons_none t T S P :
  filter (λ s, Query.on_eq (Transaction.store_id t) (Store.store_id s)) S = [] ∨
  filter (λ p, Query.on_eq (Transaction.product_id t) (Product.product_id p)) P = [] →
  Query.join (t :: T) S P = Query.join T S P.
Proof.
  intros [Hs|Hp]; rewrite join_cons.
  - by rewrite Hs.
  - rewrite Hp. induction (filter _ S) as [|s l IH]; [done|]. by simpl.
Qed.

(** X8. A NULL key never joins: the view built from a transactions table
    is the view built from its rows that carry both a store id and a product
    id; the other transactions leave no row and no amount in the view. *)
Theorem join_drops_null_keys T S P :
  Query.join T S P =
  Query.join
    (filter (λ t, is_Some (Transaction.store_id t) ∧
                  is_Some (Transaction.product_id t)) T) S P.
Proof.
  induction T as [|t T IH]; [done|].
  rewrite filter_cons.
  destruct (decide (is_Some (Transaction.store_id t) ∧
                    is_Some (Transaction.product_id t))) as [Hkeys|Hnull].
  - by rewrite !join_cons, IH.
  - rewrite join_cons_none; [done|].
    destruct (decide (is_Some (Transaction.store_id t))) as [Hs|Hs].
    + right. apply filter_nil_of_none. intros p _ [Hp _]. tauto.
    + left. apply filter_nil_of_none. by intros s _ [? _].
Qed.

Lemma constant_column {A} (col : list (option A)) (o : option A) :
  (∀ o', o' ∈ col → o' = o) → col = replicate (length col) o.
Proof.
  induction col as [|o' col IH]; intros Hall; [done|].
  rewrite (Hall o') by left. simpl. f_equal. apply IH.
  intros o'' Ho''. apply Hall. by right.
Qed.

Lemma fmap_preimage {A B} (f : A → B) (df : list A) (k : list B) :
  (∀ y, y ∈ k → ∃ x, x ∈ df ∧ y = f x) →
  ∃ l, Forall (λ x, x ∈ df) l ∧ k = f <$> l.
Proof.
  induction k as [|y k IH]; intros Hk; [by exists []|].
  destruct (Hk y) as (x & Hx & ->); [left|].
  destruct IH as (l & Hl & ->); [intros; apply Hk; by right|].
  exists (x :: l). split; [by constructor|done].
Qed.

Lemma singleton_of_all_equal {A} (l : list A) (x : A) :
  NoDup l → x ∈ l → (∀ y, y ∈ l → y = x) → l = [x].
Proof.
  intros Hnd Hx Hall.
  assert (length l = 1%nat) as Hlen.
  { apply DimensionFacts.length_one_of_all_equal; [done| |].
    - intros ->. by apply elem_of_nil in Hx.
    - intros y z Hy Hz. by rewrite (Hall y), (Hall z). }
  destruct l as [|y [|z l]]; try done. f_equal. apply Hall. left.
Qed.

(** When a store id always comes with the same location, a row of the
    sheet finds exactly its own store in the stores table. *)
Lemma store_match df r :
  one_location_per_store df → r ∈ df → is_Some (Raw.store_id r) →
  filter (λ s, Query.on_eq (Raw.store_id r) (Store.store_id s))
    (drop_duplicates (stores df)) = [store_of r].
Proof.
  intros Hfd Hr Hid.
  change (drop_duplicates (stores df)) with (frame_for df Sql.stores_tbl).
  rewrite DimensionFacts.stores_frame.
  apply singleton_of_all_equal.
  - apply NoDup_filter, NoDup_drop_duplicates.
  - apply list_elem_of_filter. split; [by split|].
    apply DimensionFacts.elem_of_stores. by exists r.
  - intros s [[_ Hs] (r' & Hr' & ->)%DimensionFacts.elem_of_stores]%list_elem_of_filter.
    simpl in Hs. unfold store_of. f_equal; [done|]. symmetry. by apply Hfd.
Qed.

Lemma transactions_preimage df :
  ∃ l, Forall (λ r, r ∈ df) l ∧ frame_for df Sql.transactions_tbl = project <$> l.
Proof.
  apply fmap_preimage. intros t Ht. simpl in Ht.
  rewrite elem_of_drop_duplicates in Ht. unfold transactions in Ht.
  apply list_elem_of_fmap in Ht as (r & -> & Hr). by exists r.
Qed.

Section arithmetic.
Variables (gmean : list Qc → option Qc) (fmul : Z → Qc → Qc).

Lemma loaded_join_cons t T S P :
  Loaded.join fmul (t :: T) S P =
  (s ← filter (λ s, Query.on_eq (Transaction.store_id t) (Store.store_id s)) S;
   p ← filter (λ p, Query.on_eq (Transaction.product_id t) (Product.product_id p)) P;
   [Loaded.select fmul t s p]) ++ Loaded.join fmul T S P.
Proof. done. Qed.

(** A transaction that matches one store and one product gives one row. *)
Lemma loaded_join_single t T S P s p :
  filter (λ s, Query.on_eq (Transaction.store_id t) (Store.store_id s)) S = [s] →
  filter (λ p, Query.on_eq (Transaction.product_id t) (Product.product_id p)) P = [p] →
  Loaded.join fmul (t :: T) S P =
  Loaded.select fmul t s p :: Loaded.join fmul T S P.
Proof. intros Hs Hp. rewrite loaded_join_cons, Hs. simpl. by rewrite Hp. Qed.

Lemma loaded_products_ids df :
  Product.product_id <$> Loaded.products gmean df
  = Some <$> group_keys Raw.product_id df.
Proof.
  unfold Loaded.products, groupby. rewrite <-!list_fmap_compose. done.
Qed.

(** The second [drop_duplicates] leaves the products frame as it is. *)
Lemma loaded_products_frame df :
  drop_duplicates (Loaded.products gmean df) = Loaded.products gmean df.
Proof.
  apply drop_duplicates_NoDup, (NoDup_fmap_1 Product.product_id).
  rewrite loaded_products_ids. apply (NoDup_fmap_2 _), NoDup_group_keys.
Qed.

(** A row of the sheet with a product id finds exactly the row of that
    product in the products table. *)
Lemma product_match df r pid :
  r ∈ df → Raw.product_id r = Some pid →
  filter (λ p, Query.on_eq (Raw.product_id r) (Product.product_id p))
    (drop_duplicates (Loaded.products gmean df))
  = [Loaded.product_of gmean df pid].
Proof.
  intros Hr Hpid. rewrite Hpid, loaded_products_frame.
  unfold Loaded.products, groupby. rewrite <-list_fmap_compose.
  rewrite (DimensionFacts.filter_fmap_unique _ _ _ pid);
    [done|apply NoDup_group_keys|apply elem_of_group_keys; eauto|].
  intros k' _. unfold Query.on_eq. simpl. split.
  - by intros [_ [= ->]].
  - intros ->. split; [by eexists|done].
Qed.

Lemma join_enrich df l :
  keys_present df → one_location_per_store df → Forall (λ r, r ∈ df) l →
  Loaded.join fmul (project <$> l) (drop_duplicates (stores df))
    (drop_duplicates (Loaded.products gmean df))
  = Loaded.enrich gmean fmul df <$> l.
Proof.
  intros Hkeys Hfd. induction 1 as [|r l Hr _ IH]; [done|].
  destruct (Hkeys r Hr) as [Hs [pid Hpid]].
  rewrite !fmap_cons.
  rewrite (loaded_join_single _ _ _ _ (store_of r) (Loaded.product_of gmean df pid)).
  - rewrite IH. unfold Loaded.enrich at 2. by rewrite Hpid.
  - by apply store_match.
  - by apply product_match.
Qed.

(** With one price per product and a faithful mean, the price stored for
    the product of a row is the price written in the row. *)
Lemma stored_price df r pid :
  faithful_mean gmean → one_price_per_product df →
  exactly_summable (dropna (Raw.unit_price <$> Spec.rows_of_product pid df)) →
  r ∈ df → Raw.product_id r = Some pid →
  gmean (dropna (Raw.unit_price <$> Spec.rows_of_product pid df))
  = Raw.unit_price r.
Proof.
  intros [Hnone Hsame] Hprice Hsummable Hr Hpid.
  set (col := Raw.unit_price <$> Spec.rows_of_product pid df) in *.
  assert (col = replicate (length col) (Raw.unit_price r)) as Hcol.
  { apply constant_column.
    intros o (r' & -> & Hr')%list_elem_of_fmap.
    apply list_elem_of_filter in Hr' as [Hpid' Hr'].
    apply Hprice; [done|done|congruence]. }
  assert (length col ≠ 0%nat) as Hlen.
  { unfold col. rewrite length_fmap. intros Hnil%nil_length_inv.
    by apply (filter_nil_not_elem_of _ _ r Hnil). }
  rewrite Hcol in Hsummable |- *.
  destruct (Raw.unit_price r) as [p|].
  - rewrite <-fmap_replicate, dropna_Some in Hsummable |- *.
    destruct (length col) as [|n]; [done|]. by apply Hsame.
  - replace (dropna (replicate (length col) (@None Qc))) with (@nil Qc); [done|].
    clear. induction (length col) as [|n IH]; [done|]. by simpl.
Qed.

Lemma enrich_amount df r :
  faithful_mean gmean → keys_present df → one_price_per_product df →
  (∀ pid, exactly_summable
            (dropna (Raw.unit_price <$> Spec.rows_of_product pid df))) →
  r ∈ df →
  Joined.total_amount (Loaded.enrich gmean fmul df r)
  = Loaded.sheet_amount fmul r.
Proof.
  intros Hmean Hkeys Hprice Hsummable Hr.
  destruct (Hkeys r Hr) as [_ [pid Hpid]].
  unfold Loaded.enrich, Loaded.sheet_amount. rewrite Hpid. simpl.
  by rewrite (stored_price df r pid).
Qed.

(** X9. On a sheet where every row carries its store id and product id and
    a store id always comes with the same location, the joined view has
    exactly one row per row of the loaded transactions table, whatever order
    the server returns them in and whatever the float mean and product
    compute: each is the transaction of a raw row of the sheet, extended
    with that row's store columns and with the product row of its product
    id. *)
Theorem view_row_per_transaction df :
  keys_present df → one_location_per_store df →
  ∃ l, Forall (λ r, r ∈ df) l ∧
       frame_for df Sql.transactions_tbl = project <$> l ∧
       ∀ view, Loaded.returned gmean fmul df view →
               view ≡ₚ Loaded.enrich gmean fmul df <$> l.
Proof.
  intros Hkeys Hfd.
  destruct (transactions_preimage df) as (l & Hl & Hframe).
  exists l. split_and!; [done|done|].
  intros view ->. unfold Loaded.view_of.
  change (drop_duplicates (transactions df))
    with (frame_for df Sql.transactions_tbl).
  rewrite Hframe. by rewrite join_enrich.
Qed.

(** X10. On a sheet where every row carries its store id and product id, a
    store id always comes with the same location, a product id always comes
    with the same unit price, the transaction ids are pairwise distinct, and
    the prices of each product are exactly summable in binary64, the amounts
    of the joined view are, up to the order of the rows, the amounts of the
    sheet: the float product of the quantity and the unit price written in
    the row.  When these amounts are exactly summable too, the total revenue
    read back from the store is the revenue of the sheet. *)
Theorem view_reproduces_sheet_revenue (fsum : list Qc → Qc) df :
  faithful_mean gmean →
  keys_present df → one_location_per_store df → one_price_per_product df →
  NoDup (Raw.transaction_id <$> df) →
  (∀ pid, exactly_summable
            (dropna (Raw.unit_price <$> Spec.rows_of_product pid df))) →
  ∀ view, Loaded.returned gmean fmul df view →
    Joined.total_amount <$> view ≡ₚ Loaded.sheet_amount fmul <$> df ∧
    (faithful_sum fsum →
     exactly_summable (dropna (Loaded.sheet_amount fmul <$> df)) →
     Figures.total_revenue fsum view
     = fsum (dropna (Loaded.sheet_amount fmul <$> df))).
Proof.
  intros Hmean Hkeys Hfd Hprice Hids Hsummable view Hview.
  assert (Joined.total_amount <$> view ≡ₚ Loaded.sheet_amount fmul <$> df)
    as Hrows.
  { rewrite Hview. unfold Loaded.view_of.
    replace (drop_duplicates (transactions df)) with (project <$> df).
    - rewrite join_enrich by (try done; by apply Forall_forall).
      rewrite <-list_fmap_compose.
      erewrite list_fmap_ext; [reflexivity|].
      intros i r Hr. apply enrich_amount; try done.
      by eapply list_elem_of_lookup_2.
    - symmetry. apply drop_duplicates_NoDup.
      apply (NoDup_fmap_1 Transaction.transaction_id).
      unfold transactions. by rewrite <-list_fmap_compose. }
  split; [done|]. intros Hfsum Hamounts. unfold Figures.total_revenue.
  assert (dropna (Joined.total_amount <$> view)
          ≡ₚ dropna (Loaded.sheet_amount fmul <$> df)) as Hpresent.
  { unfold dropna. by rewrite Hrows. }
  rewrite !Hfsum; [by rewrite Hpresent|done|].
  eapply exactly_summable_submseteq; [|exact Hamounts].
  by apply Permutation_submseteq.
Qed.
End arithmetic.


Lemma view_row_per_transaction_witness :
  ∃ l, Forall (λ r, r ∈ Examples.quarters) l ∧
       frame_for Examples.quarters Sql.transactions_tbl = project <$> l ∧
       Views.quarters ≡ₚ Loaded.enrich mean_kahan mul_int Examples.quarters <$> l.
Proof.
  destruct (view_row_per_transaction mean_kahan mul_int Examples.quarters)
    as (l & Hl & Hframe & Hview); [apply ViewFacts.quarters_is_clean..|].
  exists l. split_and!; [done|done|]. apply Hview.
  unfold Loaded.returned, Views.quarters. reflexivity.
Defined.

Lemma view_reproduces_sheet_revenue_witness :
  Joined.total_amount <$> Views.quarters
    ≡ₚ Loaded.sheet_amount mul_int <$> Examples.quarters ∧
  Figures.total_revenue sum_sequential Views.quarters
    = sum_sequential (dropna (Loaded.sheet_amount mul_int <$> Examples.quarters)).
Proof.
  destruct (view_reproduces_sheet_revenue mean_kahan mul_int sum_sequential
              Examples.quarters mean_kahan_faithful)
    with (view := Views.quarters) as [Hrows Hrevenue];
    [apply ViewFacts.quarters_is_clean..|apply ViewFacts.quarters_prices_summable
    |unfold Loaded.returned, Views.quarters; reflexivity|].
  split; [done|].
  apply Hrevenue; [exact sum_sequential_exact|apply ViewFacts.quarters_amounts_summable].
Defined.

End JoinFacts.

(** ** The data-quality checks of the exploration *)

Module QualityFacts.
Import Quality PandasFacts.

Lemma count_true_cons (b : bool) (col : list bool) :
  count_true (b :: col) = ((if b then 1 else 0) + count_true col)%nat.
Proof. unfold count_true. rewrite filter_cons. by destruct b. Qed.

(** A marked value is one that [drop_duplicates] drops. *)
Lemma duplicated_from_count {A} `{EqDecision A} (seen col : list A) :
  (count_true (duplicated_from seen col) + length (drop_duplicates_from seen col)
   = length col)%nat.
Proof.
  revert seen. induction col as [|x col IH]; intros seen; [done|]. simpl.
  destruct (decide (x ∈ seen)); rewrite count_true_cons; simpl.
  - specialize (IH seen). lia.
  - specialize (IH (x :: seen)). lia.
Qed.

Lemma NoDup_length_drop_duplicates {A} `{EqDecision A} (col : list A) :
  length (drop_duplicates col) = length col ↔ NoDup col.
Proof.
  split.
  - assert (drop_duplicates col ⊆+ col) as Hsub.
    { unfold drop_duplicates. generalize (@nil A).
      induction col as [|x col IH]; intros seen; simpl; [done|].
      destruct (decide (x ∈ seen)); [apply submseteq_cons|apply submseteq_skip];
        apply IH. }
    intros Hlen. apply submseteq_length_Permutation in Hsub; [|lia].
    rewrite <-Hsub. apply NoDup_drop_duplicates.
  - intros Hnd. by rewrite drop_duplicates_NoDup.
Qed.

Lemma count_true_zero {A} (f : A → bool) (l : list A) :
  count_true (f <$> l) = 0%nat ↔ ∀ x, x ∈ l → f x = false.
Proof.
  induction l as [|a l IH].
  - split; [|done]. intros _ x Hx. by apply elem_of_nil in Hx.
  - rewrite fmap_cons, count_true_cons. split.
    + intros Hz x [->|Hx]%elem_of_cons.
      * destruct (f a); [lia|done].
      * apply IH; [lia|done].
    + intros Hall. rewrite (Hall a) by left.
      apply IH. intros x Hx. apply Hall. by right.
Qed.

(** X11. The duplicate check counts the rows that [drop_duplicates] on the
    transaction ids would remove: the count and the number of distinct ids
    add up to the number of rows, missing ids counting as one value.  It
    reports zero exactly when no transaction id occurs twice. *)
Theorem duplicates_count (df : list Joined.row) :
  (duplicates df + length (drop_duplicates (Joined.transaction_id <$> df))
   = length df)%nat ∧
  (duplicates df = 0%nat ↔ NoDup (Joined.transaction_id <$> df)).
Proof.
  pose proof (duplicated_from_count [] (Joined.transaction_id <$> df)) as Hcount.
  rewrite length_fmap in Hcount.
  fold (duplicated (Joined.transaction_id <$> df)) in Hcount.
  fold (drop_duplicates (Joined.transaction_id <$> df)) in Hcount.
  fold (duplicates df) in Hcount.
  split; [done|].
  rewrite <-NoDup_length_drop_duplicates, length_fmap. lia.
Qed.

(** The rows of a join are selections of a transaction, a store and a
    product of the three tables. *)
Lemma elem_of_join T S P v :
  v ∈ Query.join T S P ↔
  ∃ t s p, t ∈ T ∧ s ∈ S ∧ p ∈ P ∧
    Query.on_eq (Transaction.store_id t) (Store.store_id s) ∧
    Query.on_eq (Transaction.product_id t) (Product.product_id p) ∧
    v = Query.select t s p.
Proof.
  unfold Query.join. rewrite list_elem_of_bind. split.
  - intros (t & (s & (p & Hv & Hp)%list_elem_of_bind & Hs)%list_elem_of_bind & Ht).
    apply list_elem_of_filter in Hs as [? ?].
    apply list_elem_of_filter in Hp as [? ?].
    apply list_elem_of_singleton in Hv. by exists t, s, p.
  - intros (t & s & p & Ht & Hs & Hp & Hon_s & Hon_p & ->).
    exists t. split; [|done].
    apply list_elem_of_bind. exists s. split; [|by apply list_elem_of_filter].
    apply list_elem_of_bind. exists p. split; [|by apply list_elem_of_filter].
    by apply list_elem_of_singleton.
Qed.

Lemma amount_nonnegative (n : Z) (p : Qc) :
  (0 ≤ n)%Z → 0 ≤ p → 0 ≤ Qc_of_Z n * p.
Proof.
  intros Hn Hp. apply Qcmult_nonneg_nonneg; [|done].
  rewrite <-Z2Qc_inj_0. exact (proj1 (Z2Qc_inj_le 0 n) Hn).
Qed.

(** X12. In a view read through the join query the amount is computed from
    the quantity and the price of the same row, so when the checks find no
    negative quantity and no negative price they find no negative amount
    either. *)
Theorem no_negative_amounts T S P :
  let df := Query.join T S P in
  negative_quantities df = 0%nat → negative_prices df = 0%nat →
  negative_amounts df = 0%nat.
Proof.
  intros df. unfold negative_quantities, negative_prices, negative_amounts.
  rewrite !count_true_zero. intros Hqty Hprice v Hv.
  specialize (Hqty v Hv). specialize (Hprice v Hv).
  apply elem_of_join in Hv as (t & s & p & _ & _ & _ & _ & _ & ->).
  unfold compose in *. simpl in *. unfold Query.amount.
  destruct (Transaction.transaction_qty t) as [n|]; [|done].
  destruct (Product.unit_price p) as [x|]; [|done]. simpl in *.
  apply bool_decide_eq_false in Hqty, Hprice.
  apply bool_decide_eq_false. apply Qcle_not_lt.
  apply amount_nonnegative; [lia|]. by apply Qcnot_lt_le.
Qed.

Lemma no_negative_amounts_witness :
  negative_amounts (Examples.view_of Examples.scenario) = 0%nat.
Proof.
  apply (no_negative_amounts
           (Ingestion.frame_for Examples.scenario Sql.transactions_tbl)
           (Ingestion.frame_for Examples.scenario Sql.stores_tbl)
           (Ingestion.frame_for Examples.scenario Sql.products_tbl));
    by vm_compute.
Defined.

End QualityFacts.

(** ** Rankings and weekday totals of the exploration *)

Module RollupFacts.
Import Rollups PandasFacts Binary64 Binary64Facts.

Local Instance desc_by_trans {R} (col : R → option Qc) : Transitive (desc_by col).
Proof.
  intros x y z. unfold desc_by.
  destruct (col x), (col y), (col z); try done.
  intros Hyx Hzy. by apply (Qcle_trans _ _ _ Hzy).
Qed.

Local Instance desc_by_total {R} (col : R → option Qc) : Total (desc_by col).
Proof.
  intros x y. unfold desc_by.
  destruct (col x) as [a|], (col y) as [b|]; try tauto.
  destruct (Qc_le_total a b); tauto.
Qed.

Lemma sort_values_desc_sorted {R} (col : R → option Qc) (df : list R) :
  StronglySorted (desc_by col) (sort_values_desc col df).
Proof. apply (StronglySorted_merge_sort _). Qed.

(** The first row after sorting is a row of the frame that no row beats. *)
Lemma head_sort_values_desc {R} (col : R → option Qc) (df : list R) (b : R) :
  head (sort_values_desc col df) = Some b →
  b ∈ df ∧ ∀ x, x ∈ df → desc_by col b x.
Proof.
  intros Hhead.
  pose proof (sort_values_desc_sorted col df) as Hsorted.
  pose proof (sort_values_desc_Permutation col df) as Hperm.
  destruct (sort_values_desc col df) as [|b' l]; [done|].
  injection Hhead as ->.
  apply StronglySorted_inv in Hsorted as [_ Hall].
  split.
  - rewrite <-Hperm. left.
  - intros x Hx. rewrite <-Hperm in Hx. apply elem_of_cons in Hx as [->|Hx].
    + by destruct (desc_by_total col b b).
    + rewrite Forall_forall in Hall. by apply Hall.
Qed.

Lemma head_sort_values_desc_None {R} (col : R → option Qc) (df : list R) :
  head (sort_values_desc col df) = None ↔ df = [].
Proof.
  split.
  - intros Hhead. pose proof (sort_values_desc_Permutation col df) as Hperm.
    destruct (sort_values_desc col df); [|done].
    symmetry. by apply Permutation_nil_l.
  - by intros ->.
Qed.


(** The first row of a frame that has one row per key and is sorted by a
    figure: its key is one of the keys and no key has a larger figure. *)
Lemma ranked_head {K S} (row : K → S) (name : S → K) (fig : S → Qc)
    (ks : list K) :
  (∀ k, name (row k) = k) →
  (head (sort_values_desc (Some ∘ fig) (row <$> ks)) = None ↔ ks = []) ∧
  ∀ b, head (sort_values_desc (Some ∘ fig) (row <$> ks)) = Some b →
    name b ∈ ks ∧ b = row (name b) ∧ ∀ k, k ∈ ks → fig (row k) ≤ fig b.
Proof.
  intros Hname. split.
  - rewrite head_sort_values_desc_None. split; [apply fmap_nil_inv|by intros ->].
  - intros b [Hb Hmax]%head_sort_values_desc.
    apply list_elem_of_fmap in Hb as (k & -> & Hk). rewrite Hname.
    split_and!; [done|done|].
    intros k' Hk'. apply (Hmax (row k')). by apply list_elem_of_fmap_2.
Qed.

Lemma no_group_keys {K R} `{EqDecision K, KeyOrd K} (key : R → option K)
    (df : list R) :
  group_keys key df = [] ↔ ∀ r, r ∈ df → key r = None.
Proof.
  split.
  - intros Hnil r Hr. destruct (key r) as [k|] eqn:Hk; [|done].
    assert (k ∈ group_keys key df) as Hin by (apply elem_of_group_keys; eauto).
    rewrite Hnil in Hin. by apply elem_of_nil in Hin.
  - intros Hall. destruct (group_keys key df) as [|k ks] eqn:Hkeys; [done|].
    assert (k ∈ group_keys key df) as Hin by (rewrite Hkeys; left).
    apply elem_of_group_keys in Hin as (r & Hr & Hk).
    by rewrite (Hall r Hr) in Hk.
Qed.

(** X13. Whatever the float sum, mean and rounding compute: the store
    reported as the best performer is a store of the view, its figure is the
    rounded sum of the amounts of that store's rows, and no store of the
    view has a larger rounded sum.  The lookup of the first row of the
    statistics finds nothing exactly when no row of the view has a store
    location. *)
Theorem best_store_leads (gsum : list Qc → Qc) (gmean : list Qc → option Qc)
    (fround : Qc → Qc) (df : list Joined.row) :
  (Figures.best_store gsum gmean fround df = None ↔
   ∀ r, r ∈ df → Joined.store_location r = None) ∧
  (∀ s rev, Figures.best_store gsum gmean fround df = Some (s, rev) →
     (∃ r, r ∈ df ∧ Joined.store_location r = Some s) ∧
     rev = fround (gsum (dropna (Joined.total_amount
             <$> filter (λ r, Joined.store_location r = Some s) df))) ∧
     ∀ s' r, r ∈ df → Joined.store_location r = Some s' →
       fround (gsum (dropna (Joined.total_amount
         <$> filter (λ r, Joined.store_location r = Some s') df))) ≤ rev).
Proof.
  unfold Figures.best_store, Figures.store_stats, groupby.
  rewrite <-list_fmap_compose.
  match goal with
  | |- context [sort_values_desc _ (?row <$> _)] =>
      destruct (ranked_head row Eda.store_location Eda.Total_Revenue
                  (group_keys Joined.store_location df)) as [Hnone Hsome];
        [done|]
  end.
  split.
  - by rewrite fmap_None, Hnone, no_group_keys.
  - intros s rev (st & Hhead & [= -> ->])%fmap_Some.
    destruct (Hsome st Hhead) as (Hkey & Hrow & Hmax).
    split_and!.
    + by apply elem_of_group_keys.
    + by rewrite Hrow at 1.
    + intros s' r Hr Hs'. apply (Hmax s'). apply elem_of_group_keys. eauto.
Qed.

(** X14. Whatever the float sum and rounding compute: the category reported
    as the top category is a category of the view, its figure is the rounded
    sum of the amounts of that category's rows, and no category of the view
    has a larger rounded sum.  The lookup of the first row of the statistics
    finds nothing exactly when no row of the view has a product category. *)
Theorem top_category_leads (gsum : list Qc → Qc) (fround : Qc → Qc)
    (df : list Joined.row) :
  (Figures.top_category gsum fround df = None ↔
   ∀ r, r ∈ df → Joined.product_category r = None) ∧
  (∀ k rev, Figures.top_category gsum fround df = Some (k, rev) →
     (∃ r, r ∈ df ∧ Joined.product_category r = Some k) ∧
     rev = fround (gsum (dropna (Joined.total_amount
             <$> filter (λ r, Joined.product_category r = Some k) df))) ∧
     ∀ k' r, r ∈ df → Joined.product_category r = Some k' →
       fround (gsum (dropna (Joined.total_amount
         <$> filter (λ r, Joined.product_category r = Some k') df))) ≤ rev).
Proof.
  unfold Figures.top_category, Figures.category_stats, groupby.
  rewrite <-list_fmap_compose.
  match goal with
  | |- context [sort_values_desc _ (?row <$> _)] =>
      destruct (ranked_head row Eda.product_category Eda.Revenue
                  (group_keys Joined.product_category df)) as [Hnone Hsome];
        [done|]
  end.
  split.
  - by rewrite fmap_None, Hnone, no_group_keys.
  - intros k rev (c & Hhead & [= -> ->])%fmap_Some.
    destruct (Hsome c Hhead) as (Hkey & Hrow & Hmax).
    split_and!.
    + by apply elem_of_group_keys.
    + by rewrite Hrow at 1.
    + intros k' r Hr Hk'. apply (Hmax k'). apply elem_of_group_keys. eauto.
Qed.

(** In binary64 one sale of 0.575 makes store A the best performer with a
    reported revenue of 0.57. *)
Lemma best_store_in_binary64 :
  Figures.best_store Binary64.sum_kahan Binary64.mean_kahan Binary64.around2
    [Examples.sale 1 "A" "Coffee" (Binary64.round (Qc_of_Z 575 / Qc_of_Z 1000))]
  = Some ("A"%string, Binary64.round (Qc_of_Z 57 / Qc_of_Z 100)).
Proof. apply (bool_decide_unpack _). by vm_compute. Qed.




Lemma NoDup_day_order : NoDup day_order.
Proof. apply (bool_decide_unpack _). by vm_compute. Qed.

Lemma day_name_Some date name :
  day_name date = Some name → is_Some date ∧ name ∈ day_order.
Proof.
  destruct date as [d|]; [|done]. simpl. intros Hname.
  split; [by eexists|]. by eapply list_elem_of_lookup_2.
Qed.

Lemma day_name_defined (d : Z) : is_Some (day_name (Some d)).
Proof.
  simpl. apply lookup_lt_is_Some_2. unfold Modelling.dayofweek.
  change (length day_order) with 7%nat.
  pose proof (Z.mod_pos_bound (d + 3) 7). lia.
Qed.

(** [reindex] of a series that has one entry per key. *)
Lemma reindex_keyed {K V} `{EqDecision K} (order ks : list K) (g : K → V) :
  NoDup ks →
  reindex order ((λ k, (k, g k)) <$> ks) =
  (λ k, (k, if decide (k ∈ ks) then Some (g k) else None)) <$> order.
Proof.
  intros Hks. unfold reindex. apply list_fmap_ext. intros _ k _. f_equal.
  destruct (decide (k ∈ ks)) as [Hk|Hk].
  - rewrite (DimensionFacts.filter_fmap_unique _ _ ks k); [done|done|done|].
    intros k' _. done.
  - rewrite DimensionFacts.filter_fmap_none; [done|].
    intros k' Hk' Heq. simpl in Heq. by subst.
Qed.

Lemma dropna_if_present {K V} (P : K → Prop) `{∀ k, Decision (P k)}
    (g : K → V) (l : list K) :
  dropna ((λ k, if decide (P k) then Some (g k) else None) <$> l) =
  g <$> filter P l.
Proof.
  unfold dropna. induction l as [|k l IH]; [done|].
  rewrite fmap_cons, filter_cons. destruct (decide (P k)); csimpl; by rewrite IH.
Qed.

Lemma dropna_reindexed {K V} (P : K → Prop) `{∀ k, Decision (P k)}
    (g : K → V) (l : list K) :
  dropna ((λ k, (k, if decide (P k) then Some (g k) else None)) <$> l).*2 =
  g <$> filter P l.
Proof. rewrite <-list_fmap_compose. apply (dropna_if_present P g). Qed.

Lemma day_revenue_keyed gsum df :
  Figures.day_revenue gsum df =
  (λ name, (name,
      if decide (name ∈ group_keys (day_name ∘ Joined.transaction_date) df)
      then Some (gsum (dropna (Joined.total_amount
             <$> filter (λ r, (day_name ∘ Joined.transaction_date) r = Some name)
                   df)))
      else None)) <$> day_order.
Proof.
  unfold Figures.day_revenue, groupby. rewrite <-list_fmap_compose.
  apply (reindex_keyed day_order _
           (λ k, gsum (dropna (Joined.total_amount
              <$> filter (λ r, (day_name ∘ Joined.transaction_date) r = Some k)
                    df)))).
  apply NoDup_group_keys.
Qed.

(** The weekdays that occur in the view, in the order Monday to Sunday, are
    the group keys in another order. *)
Lemma weekdays_present (df : list Joined.row) :
  filter (λ name, name ∈ group_keys (day_name ∘ Joined.transaction_date) df)
    day_order
  ≡ₚ group_keys (day_name ∘ Joined.transaction_date) df.
Proof.
  apply NoDup_Permutation.
  - apply NoDup_filter, NoDup_day_order.
  - apply NoDup_group_keys.
  - intros name. rewrite list_elem_of_filter. split; [tauto|].
    intros Hname. split; [done|].
    apply elem_of_group_keys in Hname as (r & _ & Hday).
    by apply day_name_Some in Hday as [_ ?].
Qed.

Lemma dated_rows (df : list Joined.row) :
  filter (λ r, is_Some ((day_name ∘ Joined.transaction_date) r)) df =
  filter (λ r, is_Some (Joined.transaction_date r)) df.
Proof.
  apply filter_ext_elem_of. intros r _. unfold compose.
  destruct (Joined.transaction_date r) as [d|].
  - split; [by eexists|]. intros _. apply day_name_defined.
  - split; by intros [? ?].
Qed.

(** X16. The weekday totals have one entry per weekday, Monday to Sunday.
    The entry of a weekday is missing exactly when no dated row of the view
    falls on it, and is otherwise the float sum of the amounts of the rows
    that do.  When the amounts of the view are exactly summable in binary64,
    the entries add up to the revenue of the dated rows, whichever faithful
    summations compute the sums. *)
Theorem day_revenue_by_weekday (fsum gsum : list Qc → Qc) (df : list Joined.row) :
  (Figures.day_revenue gsum df).*1 = day_order ∧
  (∀ name, name ∈ day_order →
     (name, None) ∈ Figures.day_revenue gsum df ↔
     ∀ r, r ∈ df → day_name (Joined.transaction_date r) ≠ Some name) ∧
  (∀ name rev, (name, Some rev) ∈ Figures.day_revenue gsum df ↔
     (∃ r, r ∈ df ∧ day_name (Joined.transaction_date r) = Some name) ∧
     rev = gsum (dropna (Joined.total_amount
             <$> filter (λ r, day_name (Joined.transaction_date r) = Some name)
                   df))) ∧
  (faithful_sum fsum → faithful_sum gsum →
   exactly_summable (dropna (Joined.total_amount <$> df)) →
   total (dropna (Figures.day_revenue gsum df).*2) =
     fsum (dropna (Joined.total_amount
             <$> filter (λ r, is_Some (Joined.transaction_date r)) df)) ∧
   fsum (dropna (Figures.day_revenue gsum df).*2) =
     fsum (dropna (Joined.total_amount
             <$> filter (λ r, is_Some (Joined.transaction_date r)) df))).
Proof.
  rewrite day_revenue_keyed.
  set (key := day_name ∘ Joined.transaction_date).
  assert (∀ name, name ∈ group_keys key df ↔
            ∃ r, r ∈ df ∧ day_name (Joined.transaction_date r) = Some name)
    as Hkeys by (intros; apply elem_of_group_keys).
  split_and!.
  - rewrite <-list_fmap_compose. apply list_fmap_id.
  - intros name Hname. rewrite list_elem_of_fmap. split.
    + intros (name' & [= <- Hnone] & _) r Hr Hday.
      destruct (decide (name ∈ group_keys key df)) as [|Hout]; [done|].
      apply Hout, Hkeys. eauto.
    + intros Hnone. exists name. split; [|done].
      rewrite decide_False; [done|].
      intros (r & Hr & Hday)%Hkeys. by apply (Hnone r).
  - intros name rev. rewrite list_elem_of_fmap. split.
    + intros (name' & [= <- Hsome] & _).
      destruct (decide (name ∈ group_keys key df)) as [Hin|]; [|done].
      injection Hsome as Hrev. split; [by apply Hkeys|]. exact Hrev.
    + intros [(r & Hr & Hday) ->]. exists name. split.
      * rewrite decide_True; [done|]. apply Hkeys. eauto.
      * by apply day_name_Some in Hday as [_ ?].
  - intros Hfsum Hgsum Hdf.
    rewrite (dropna_reindexed (λ name, name ∈ group_keys key df)
               (λ name, gsum (dropna (Joined.total_amount
                  <$> filter (λ r, key r = Some name) df)))).
    assert (fsum (dropna (Joined.total_amount
               <$> filter (λ r, is_Some (Joined.transaction_date r)) df))
            = sum (Joined.total_amount
                   <$> filter (λ r, is_Some (key r)) df)) as ->.
    { unfold key. rewrite dated_rows. apply Hfsum.
      eapply exactly_summable_submseteq; [|exact Hdf].
      apply dropna_filter_sublist. }
    apply (grouped_sums_add_up key Joined.total_amount fsum gsum df);
      [done|done|done|].
    unfold groupby. rewrite <-!list_fmap_compose.
    apply fmap_Permutation, weekdays_present.
Qed.

Lemma day_revenue_by_weekday_witness :
  total (dropna (Figures.day_revenue sum_kahan Views.quarters).*2)
    = Qc_of_Z 85 / Qc_of_Z 4 ∧
  sum_sequential (dropna (Figures.day_revenue sum_kahan Views.quarters).*2)
    = Qc_of_Z 85 / Qc_of_Z 4.
Proof.
  destruct (day_revenue_by_weekday sum_sequential sum_kahan Views.quarters)
    as (_ & _ & _ & Hsum).
  destruct (Hsum sum_sequential_exact sum_kahan_exact ViewFacts.quarters_summable)
    as [-> ->].
  split; apply Qc_is_canon; by vm_compute.
Defined.

End RollupFacts.

(** ** The daily series: days, day numbers and the 14-day average *)

Module DailyFacts.
Import Modelling PandasFacts Binary64 Binary64Facts.

Lemma daily_revenue_keyed gsum df :
  Figures.daily_revenue gsum df =
  (λ d, (d, gsum (dropna (Joined.total_amount
           <$> filter (λ r, Joined.transaction_date r = Some d) df))))
  <$> group_keys Joined.transaction_date df.
Proof. unfold Figures.daily_revenue, groupby. by rewrite <-list_fmap_compose. Qed.

(** X17. The daily revenue series has exactly one entry per date that
    occurs in the view, and the entry of a day is the float sum of the
    amounts of the rows of that date.  When the amounts of the view are
    exactly summable in binary64, the daily revenues add up to the revenue
    of the dated rows, whichever faithful summations compute the sums: the
    amount of a row without date is in no day. *)
Theorem daily_revenue_conserved (fsum gsum : list Qc → Qc) (df : list Joined.row) :
  NoDup (Figures.daily_revenue gsum df).*1 ∧
  (∀ d, d ∈ (Figures.daily_revenue gsum df).*1 ↔
        ∃ r, r ∈ df ∧ Joined.transaction_date r = Some d) ∧
  (∀ d rev, (d, rev) ∈ Figures.daily_revenue gsum df →
     rev = gsum (dropna (Joined.total_amount
             <$> filter (λ r, Joined.transaction_date r = Some d) df))) ∧
  (faithful_sum fsum → faithful_sum gsum →
   exactly_summable (dropna (Joined.total_amount <$> df)) →
   total (Figures.daily_revenue gsum df).*2 =
     fsum (dropna (Joined.total_amount
             <$> filter (λ r, is_Some (Joined.transaction_date r)) df)) ∧
   fsum (Figures.daily_revenue gsum df).*2 =
     fsum (dropna (Joined.total_amount
             <$> filter (λ r, is_Some (Joined.transaction_date r)) df))).
Proof.
  assert ((Figures.daily_revenue gsum df).*1
          = group_keys Joined.transaction_date df) as Hdates.
  { rewrite daily_revenue_keyed, <-list_fmap_compose. apply list_fmap_id. }
  split_and!.
  - rewrite Hdates. apply NoDup_group_keys.
  - intros d. rewrite Hdates. apply elem_of_group_keys.
  - intros d rev. rewrite daily_revenue_keyed.
    by intros (d' & [= -> ->] & _)%list_elem_of_fmap.
  - intros Hfsum Hgsum Hdf.
    assert (fsum (dropna (Joined.total_amount
               <$> filter (λ r, is_Some (Joined.transaction_date r)) df))
            = sum (Joined.total_amount
                   <$> filter (λ r, is_Some (Joined.transaction_date r)) df)) as ->.
    { apply Hfsum. eapply exactly_summable_submseteq; [|exact Hdf].
      apply dropna_filter_sublist. }
    by apply (grouped_sums_add_up Joined.transaction_date Joined.total_amount
                fsum gsum df).
Qed.

Lemma daily_revenue_conserved_witness :
  total (Figures.daily_revenue sum_kahan Views.quarters).*2
    = Qc_of_Z 85 / Qc_of_Z 4 ∧
  sum_sequential (Figures.daily_revenue sum_kahan Views.quarters).*2
    = Qc_of_Z 85 / Qc_of_Z 4.
Proof.
  destruct (daily_revenue_conserved sum_sequential sum_kahan Views.quarters)
    as (_ & _ & _ & Hsum).
  destruct (Hsum sum_sequential_exact sum_kahan_exact ViewFacts.quarters_summable)
    as [-> ->].
  split; apply Qc_is_canon; by vm_compute.
Defined.


(** Dates grow strictly along the daily series. *)
Lemma daily_dates_increase df i j a b :
  (i < j)%nat → daily_data df !! i = Some a → daily_data df !! j = Some b →
  (date a < date b)%Z.
Proof.
  intros Hij Ha Hb. apply (SplitFacts.daily_data_ascending df j).
  - apply elem_of_take. eauto.
  - apply list_elem_of_lookup. exists 0%nat. by rewrite lookup_drop, Nat.add_0_r.
Qed.

Lemma foldr_min_least (d : Z) (ds : list Z) :
  Forall (λ d', d ≤ d')%Z ds → foldr Z.min d ds = d.
Proof. induction 1 as [|d' ds Hd _ IH]; simpl; [done|]. rewrite IH. lia. Qed.

(** The earliest date of the daily series is the date of its first row. *)
Lemma min_date_first df r dd :
  daily_data df = r :: dd → min_date (daily_data df) = Some (date r).
Proof.
  intros Hdd. pose proof (SplitFacts.daily_dates_sorted df) as Hsorted.
  unfold min_date. rewrite Hdd in *. rewrite fmap_cons in *.
  apply StronglySorted_inv in Hsorted as [_ Hall].
  f_equal. apply foldr_min_least.
  eapply Forall_impl; [exact Hall|]. intros d'. apply SplitFacts.key_le_Z.
Qed.

Lemma day_number_lookup df i x :
  X (daily_data df) !! i = Some x →
  ∃ r0 r, daily_data df !! 0%nat = Some r0 ∧ daily_data df !! i = Some r ∧
          day_number x = (date r - date r0)%Z.
Proof.
  unfold X. rewrite list_lookup_fmap_Some. intros (r & -> & Hr).
  destruct (daily_data df) as [|r0 dd] eqn:Hdd; [done|].
  rewrite <-Hdd, (min_date_first df r0 dd Hdd), Hdd.
  by exists r0, r.
Qed.

(** X18. The feature [day_number] counts calendar days from the first day
    of the daily series, not rows: it is 0 on the first row, grows strictly
    from row to row and is at least the row index; on a row whose date is
    more than one day after the date of the row before it, it exceeds the
    row index. *)
Theorem day_number_counts_calendar_days (df : list Joined.row) :
  let features := X (daily_data df) in
  (∀ x, features !! 0%nat = Some x → day_number x = 0%Z) ∧
  (∀ i j a b, (i < j)%nat → features !! i = Some a → features !! j = Some b →
     (day_number a < day_number b)%Z) ∧
  (∀ i x, features !! i = Some x → (Z.of_nat i ≤ day_number x)%Z) ∧
  (∀ i x r r', features !! S i = Some x →
     daily_data df !! i = Some r → daily_data df !! S i = Some r' →
     (date r + 1 < date r')%Z → (Z.of_nat (S i) < day_number x)%Z).
Proof.
  intros features.
  assert (∀ x, features !! 0%nat = Some x → day_number x = 0%Z) as Hfirst.
  { intros x (r0 & r & H0 & Hr & ->)%day_number_lookup.
    rewrite H0 in Hr. injection Hr as ->. lia. }
  assert (∀ i j a b, (i < j)%nat →
            features !! i = Some a → features !! j = Some b →
            (day_number a < day_number b)%Z) as Hgrow.
  { intros i j a b Hij (r0 & ra & H0 & Ha & ->)%day_number_lookup
                       (r0' & rb & H0' & Hb & ->)%day_number_lookup.
    rewrite H0 in H0'. injection H0' as <-.
    pose proof (daily_dates_increase df i j ra rb Hij Ha Hb). lia. }
  assert (∀ i x, features !! i = Some x → (Z.of_nat i ≤ day_number x)%Z) as Hindex.
  { induction i as [|i IH]; intros x Hx.
    - rewrite (Hfirst x Hx). lia.
    - destruct (features !! i) as [a|] eqn:Ha.
      + specialize (IH a eq_refl).
        pose proof (Hgrow i (S i) a x (Nat.lt_succ_diag_r i) Ha Hx). lia.
      + apply lookup_ge_None in Ha. apply lookup_lt_Some in Hx. lia. }
  split_and!; [done|done|done|].
  intros i x r r' Hx Hr Hr' Hgap.
  assert (features !! i = Some (feature_row (default 0%Z (min_date (daily_data df))) r))
    as Ha by (unfold features, X; by rewrite list_lookup_fmap, Hr).
  pose proof (Hindex i _ Ha) as Hi.
  apply day_number_lookup in Ha as (r0 & ra & H0 & Hra & Hda).
  apply day_number_lookup in Hx as (r0' & rx & H0' & Hrx & ->).
  rewrite H0 in H0'. injection H0' as <-.
  rewrite Hr in Hra. injection Hra as <-.
  rewrite Hr' in Hrx. injection Hrx as <-.
  rewrite Hda in Hi. lia.
Qed.





End DailyFacts.

(** ** The seven-day outlook *)

Module OutlookFacts.
Import Modelling Outlook.

Lemma max_Z_is_Some (col : list Z) : col ≠ [] → is_Some (max_Z col).
Proof. destruct col; [done|]. by eexists. Qed.

Lemma dayofweek_shift (d i : Z) :
  dayofweek (d + i) = ((dayofweek d + i) `mod` 7)%Z.
Proof.
  unfold dayofweek. rewrite Zplus_mod_idemp_l. f_equal. lia.
Qed.

Lemma dayofweek_range (d : Z) : (0 ≤ dayofweek d < 7)%Z.
Proof. unfold dayofweek. apply Z.mod_pos_bound. lia. Qed.

(** The seven days after a day cover every weekday once. *)
Lemma week_after (d : Z) :
  (λ i, dayofweek (d + i)) <$> [1; 2; 3; 4; 5; 6; 7]%Z ≡ₚ [0; 1; 2; 3; 4; 5; 6]%Z.
Proof.
  erewrite list_fmap_ext; [|intros i x _; apply dayofweek_shift].
  pose proof (dayofweek_range d) as Hrange.
  assert (dayofweek d ∈ [0; 1; 2; 3; 4; 5; 6]%Z) as Hcase.
  { rewrite !elem_of_cons. lia. }
  repeat (apply elem_of_cons in Hcase as [->|Hcase]);
    try (by apply elem_of_nil in Hcase);
    apply NoDup_Permutation;
    try (apply (bool_decide_unpack _); by vm_compute);
    intros x; rewrite !fmap_cons, fmap_nil, !elem_of_cons, !elem_of_nil;
    vm_compute; tauto.
Qed.

Lemma weekend_days (l : list Z) :
  l ≡ₚ [0; 1; 2; 3; 4; 5; 6]%Z →
  foldr Z.add 0%Z ((λ w, if decide (w ∈ [5; 6]%Z) then 1 else 0)%Z <$> l) = 2%Z.
Proof.
  intros Hl. change 2%Z with
    (foldr Z.add 0%Z ((λ w, if decide (w ∈ [5; 6]%Z) then 1 else 0)%Z
                      <$> [0; 1; 2; 3; 4; 5; 6]%Z)).
  induction Hl as [|x l1 l2 _ IH|x y l|l1 l2 l3 _ IH1 _ IH2].
  - done.
  - rewrite !fmap_cons. simpl. by rewrite IH.
  - rewrite !fmap_cons. simpl. lia.
  - congruence.
Qed.

(** X20. On a non-empty daily series the outlook has seven rows, for the
    seven calendar days after the last day of the series: the day numbers
    continue the series, the predicted revenue is the model's prediction for
    the features of that day, every weekday occurs once and exactly two of
    the days are flagged as weekend.  On an empty series there is no
    outlook. *)
Theorem outlook_covers_next_week (predict : features → Qc) (dd : list daily) :
  (dd = [] → future_predictions predict dd = None) ∧
  (dd ≠ [] →
   ∃ last_day last_date preds,
     max_Z (day_number <$> X dd) = Some last_day ∧
     max_Z (date <$> dd) = Some last_date ∧
     future_predictions predict dd = Some preds ∧
     future_date <$> preds = (λ i, last_date + i)%Z <$> [1; 2; 3; 4; 5; 6; 7]%Z ∧
     day_number ∘ X_future <$> preds
       = (λ i, last_day + i)%Z <$> [1; 2; 3; 4; 5; 6; 7]%Z ∧
     Forall (λ p, predicted_revenue p = predict (X_future p) ∧
                  day_of_week (X_future p) = dayofweek (future_date p) ∧
                  week_number (X_future p) = isocalendar_week (future_date p) ∧
                  (is_weekend (X_future p) = 1%Z ↔
                   dayofweek (future_date p) ∈ [5; 6]%Z)) preds ∧
     day_of_week ∘ X_future <$> preds ≡ₚ [0; 1; 2; 3; 4; 5; 6]%Z ∧
     foldr Z.add 0%Z (is_weekend ∘ X_future <$> preds) = 2%Z).
Proof.
  split; [by intros ->|]. intros Hne.
  destruct (max_Z_is_Some (day_number <$> X dd)) as [last_day Hday].
  { unfold X. by destruct dd. }
  destruct (max_Z_is_Some (date <$> dd)) as [last_date Hdate]; [by destruct dd|].
  unfold future_predictions. rewrite Hday, Hdate. cbn [mbind option_bind].
  eexists last_day, last_date, _. split_and!; try done.
  - apply Forall_fmap, Forall_forall. intros i _. simpl.
    split_and!; try done.
    destruct (decide (dayofweek (last_date + i) ∈ [5; 6]%Z)); split; done.
  - apply (week_after last_date).
  - pose proof (week_after last_date) as Hweek.
    etransitivity; [|apply (weekend_days _ Hweek)]. reflexivity.
Qed.

Lemma outlook_covers_next_week_witness :
  ∃ preds,
    future_predictions (λ x, Qc_of_Z (day_number x))
      (daily_data (Examples.view_of Examples.six_days)) = Some preds ∧
    day_of_week ∘ X_future <$> preds ≡ₚ [0; 1; 2; 3; 4; 5; 6]%Z.
Proof.
  destruct (outlook_covers_next_week (λ x, Qc_of_Z (day_number x))
              (daily_data (Examples.view_of Examples.six_days))) as [_ Hweek].
  destruct Hweek as (last_day & last_date & preds & _ & _ & Hpreds & _ & _ & _
                     & Hdays & _); [by vm_compute|].
  by exists preds.
Defined.

End OutlookFacts.

(** ** What the exploration reads after a run *)

Module ReadBackFacts.
Import Ingestion.

Local Ltac run_script :=
  unfold run, main, load, report_load_error, get_connection, to_sql, try_except,
    print, raise, mbind, script_bind, mret, script_ret; simpl.

Local Ltac step_verification :=
  match goal with
  | |- context [verification ?env ?W] =>
      destruct (FailureFacts.verification_console env W)
        as (Hres & Hdb & Hconsole);
      destruct (verification env W) as [[?|[]] w']; simpl in *;
      [discriminate Hres|]; rewrite ?Hdb, ?Hconsole
  end.

Lemma read_sql_missing_table db0 t :
  Sql.get_table t db0 = None → Query.read_sql db0 = None.
Proof.
  unfold Query.read_sql. destruct t; simpl; intros ->; simpl;
    by repeat (match goal with |- context [?o ≫= _] => destruct o; simpl end).
Qed.

(** X21. What the join query of the later scripts returns after a run of
    the ingestion.  When the engine and the three loads succeed it is the
    join of the three frames prepared from the sheet, whatever the store held
    before.  When creating the engine raises it is what the query returned
    before the run.  When a load raises after the old table was dropped, the
    query fails. *)
Theorem view_after_run env df db0 :
  (loads_succeed env →
     Query.read_sql (run env df db0) = Some (Examples.view_of df)) ∧
  (∀ e, engine_fault env = Some e →
     Query.read_sql (run env df db0) = Query.read_sql db0) ∧
  (∀ t e, fails_at env t e Dropped → Query.read_sql (run env df db0) = None).
Proof.
  split_and!.
  - intros Hok. by rewrite (IngestionFacts.run_loads env df db0 Hok).
  - intros e Heng. run_script. rewrite Heng. simpl. step_verification. done.
  - intros t e (Heng & Hfail & Hbefore).
    apply (read_sql_missing_table _ t). destruct t.
    + run_script. rewrite Heng, Hfail. simpl. step_verification. done.
    + run_script.
      rewrite Heng, (Hbefore Sql.stores_tbl), Hfail by (simpl; lia).
      simpl. step_verification. done.
    + run_script.
      rewrite Heng, (Hbefore Sql.stores_tbl), (Hbefore Sql.products_tbl), Hfail
        by (simpl; lia).
      simpl. step_verification. done.
Qed.

End ReadBackFacts.
